(** * figaro: discovery, checksums and the incremental build loop

    A shallow embedding of [src/figaro/figarocli.py]: the decorator filter
    [FigCtlTagFilter], the streaming [checksum] and the body of [main]. *)

From Stdlib Require Import List String Ascii ZArith Lia Bool.
From Stdlib.Strings Require Import Byte.
From stdpp Require Import gmap strings list fin_maps.

Local Open Scope string_scope.
Set Warnings "-register-all,-clear-no-such-hyp,-deprecated-syntactic-definition".  (* nested lists: induction principles are given by hand *)

(** ** Python syntax trees, as far as the visitor looks at them *)

Module Ast.

(** Expressions.  Only [Name] carries an [id] attribute; [Call] has a
    [func]; everything the filter never inspects is [Constant]. *)
Inductive expr : Type :=
| Name (id : string)
| Attribute (value : expr) (attr : string)
| Call (func : expr) (args : list expr)
| Constant (repr : string).

(** Statements.  [If] stands for every compound statement whose fields hold
    statement lists (if, for, while, with, try): [generic_visit] walks them
    in field order.  [Expr] stands for every simple statement.  An expression
    never contains a statement. *)
Inductive stmt : Type :=
| FunctionDef (name : string) (decorator_list : list expr) (body : list stmt)
| AsyncFunctionDef (name : string) (decorator_list : list expr) (body : list stmt)
| ClassDef (name : string) (decorator_list : list expr) (body : list stmt)
| If (test : expr) (body orelse : list stmt)
| Expr (value : expr)
| Pass.

(** A parsed file: [ast.Module(body=...)]. *)
Definition module_ast : Type := list stmt.

End Ast.
Import Ast.

(** ** FigCtlTagFilter (figarocli.py, lines 20-30) *)

Record FigCtlTagFilter : Type := mkFilter { tagged_functions : list string }.

(** [__init__]: [self.tagged_functions = []]. *)
Definition FigCtlTagFilter_init : FigCtlTagFilter := mkFilter [].

(** [getattr(e, "id", "")]. *)
Definition getattr_id (e : expr) : string :=
  match e with
  | Name id => id
  | _ => ""
  end.

(** [isinstance(dec, ast.Call) and getattr(dec.func, "id", "") == "figarotag"]. *)
Definition is_tag_call (dec : expr) : bool :=
  match dec with
  | Call func _ => String.eqb (getattr_id func) "figarotag"
  | _ => false
  end.

(** The [for dec in node.decorator_list] loop of [visit_FunctionDef]. *)
Definition scan_decorators (name : string) (decs : list expr)
    (self : FigCtlTagFilter) : FigCtlTagFilter :=
  fold_left
    (fun s dec =>
       if is_tag_call dec then mkFilter (tagged_functions s ++ [name]) else s)
    decs self.

(** [NodeVisitor.visit]: [visit_FunctionDef] on a [FunctionDef], and
    [generic_visit] on every other node; both walk the child statements. *)
Fixpoint visit (node : stmt) (self : FigCtlTagFilter) : FigCtlTagFilter :=
  let generic_visit := fold_left (fun s n => visit n s) in
  match node with
  | FunctionDef name decs body =>
      generic_visit body (scan_decorators name decs self)
  | AsyncFunctionDef _ _ body => generic_visit body self
  | ClassDef _ _ body => generic_visit body self
  | If _ body orelse => generic_visit orelse (generic_visit body self)
  | Expr _ => self
  | Pass => self
  end.

(** [tag_filter.visit(tree)] on the [ast.Module]. *)
Definition visit_Module (tree : module_ast) (self : FigCtlTagFilter)
    : FigCtlTagFilter :=
  fold_left (fun s n => visit n s) tree self.

(** Lines 156-158: a fresh filter run over one tree. *)
Definition discover_file (tree : module_ast) : list string :=
  tagged_functions (visit_Module tree FigCtlTagFilter_init).

(** ** hashlib, as the checksum uses it *)

(** A hash object: [hashlib.new], [update], [hexdigest]. *)
Record hashlib : Type := mkHashlib {
  hstate : Type;
  hnew : hstate;
  hupdate : hstate -> list byte -> hstate;
  hexdigest : hstate -> string
}.

(** The documented behaviour of [update]: feeding data in pieces is feeding
    the concatenation. *)
Record hashlib_streaming (H : hashlib) : Prop := {
  hupdate_nil : forall s, hupdate H s [] = s;
  hupdate_app : forall s a b, hupdate H (hupdate H s a) b = hupdate H s (a ++ b)
}.

(** The hash of a whole byte string taken at once. *)
Definition hash_at_once (H : hashlib) (data : list byte) : string :=
  hexdigest H (hupdate H (hnew H) data).

(** [f.read(8192)]: the size of one chunk. *)
Definition chunk_size : nat := Z.to_nat 8192.

(** The loop [for chunk in iter(lambda: f.read(n), b""): h.update(chunk)] on
    the bytes [f] not yet read.  One unit of [fuel] per call of [f.read];
    [None] when the fuel runs out before the empty chunk is seen. *)
Fixpoint read_chunks (H : hashlib) (n fuel : nat) (f : list byte)
    (h : hstate H) : option (hstate H) :=
  match fuel with
  | O => None
  | S fuel' =>
      match firstn n f with
      | [] => Some h
      | chunk => read_chunks H n fuel' (skipn n f) (hupdate H h chunk)
      end
  end.

(** [checksum] (lines 33-39) on the content of the opened file. *)
Definition checksum_bytes (H : hashlib) (data : list byte) : option string :=
  option_map (hexdigest H)
    (read_chunks H chunk_size (S (List.length data)) data (hnew H)).

(** ** The fingerprint store and the file system *)

(** One value of the metadata dictionary.  A JSON object may lack either
    key; a key that is present holds a value of the documented type. *)
Record fprecord : Type := mkRecord {
  rec_checksum : option string;
  rec_dependents : option (list string)
}.

Abbreviation store := (gmap string fprecord).

(** A file system entry.  [JsonFile doc] is a regular file holding
    [json.dump(doc)]; it is kept in parsed form, so [json.load] of it is
    [doc]. *)
Inductive node : Type :=
| File (data : list byte)
| JsonFile (doc : store)
| Dir.

(** The file system, keyed by resolved absolute path. *)
Abbreviation filesystem := (gmap string node).

(** ** Loaded modules *)

Inductive annotation : Type := AnnPath | AnnOther.

(** A function object found in a loaded module: its signature, the two
    attributes the decorator sets, and what calling it with the save path
    does to the file system ([None]: it raises). *)
Record callable : Type := mkCallable {
  params : list annotation;
  figaroname : option string;
  figaroext : option string;
  call : string -> filesystem -> option filesystem
}.

Inductive pyobject : Type :=
| Function (f : callable)
| NotCallable.

Abbreviation pymodule := (gmap string pyobject).

(** [figarodec.figarotag(name, ext)(func)]: [name or func.__name__],
    [ext or "pdf"]; an empty string is falsy. *)
Definition py_or (x : option string) (default : string) : string :=
  match x with
  | Some s => if String.eqb s "" then default else s
  | None => default
  end.

Definition figarotag (name ext : option string) (func_name : string)
    (func : callable) : callable :=
  mkCallable (params func)
             (Some (py_or name func_name))
             (Some (py_or ext "pdf"))
             (call func).

(** ** What the run takes from its platform *)

Record platform : Type := mkPlatform {
  resolve : string -> string;                       (* str(p.resolve()) *)
  joinpath : string -> string -> string;            (* p.joinpath(name) *)
  parent : string -> string;                        (* of a resolved path *)
  relative_to_cwd : string -> option string;        (* None: ValueError *)
  rglob_py : filesystem -> string -> list string;   (* dir.rglob("*.py") *)
  iterdir : filesystem -> string -> list string;    (* entries of a directory *)
  ast_parse : list byte -> option module_ast;       (* None: SyntaxError *)
  exec_module : list byte -> option pymodule;       (* None: the import raises *)
  json_text : store -> list byte;                   (* the text of json.dump *)
  sha256 : hashlib
}.

Section FileSystem.
Context (P : platform).

Definition path_exists (fs : filesystem) (p : string) : bool :=
  match fs !! resolve P p with Some _ => true | None => false end.

Definition is_dir (fs : filesystem) (p : string) : bool :=
  match fs !! resolve P p with Some Dir => true | _ => false end.

Definition is_file (fs : filesystem) (p : string) : bool :=
  match fs !! resolve P p with
  | Some (File _) | Some (JsonFile _) => true
  | _ => false
  end.

(** [p.mkdir(exist_ok=True)]; [None]: it raises. *)
Definition mkdir (fs : filesystem) (p : string) : option filesystem :=
  match fs !! resolve P p with
  | Some Dir => Some fs
  | Some _ => None
  | None =>
      match fs !! parent P (resolve P p) with
      | Some Dir => Some (<[resolve P p := Dir]> fs)
      | _ => None
      end
  end.

(** [p.rmdir()] of a directory found empty. *)
Definition rmdir (fs : filesystem) (p : string) : option filesystem :=
  match fs !! resolve P p with
  | Some Dir => Some (delete (resolve P p) fs)
  | _ => None
  end.

(** [open(p, "w")] followed by writing [n]'s content. *)
Definition write_file (fs : filesystem) (p : string) (n : node)
    : option filesystem :=
  match fs !! resolve P p with
  | Some Dir => None
  | _ =>
      match fs !! parent P (resolve P p) with
      | Some Dir => Some (<[resolve P p := n]> fs)
      | _ => None
      end
  end.

(** [open(p, "rb").read()]. *)
Definition read_file (fs : filesystem) (p : string) : option (list byte) :=
  match fs !! resolve P p with
  | Some (File data) => Some data
  | Some (JsonFile doc) => Some (json_text P doc)
  | _ => None
  end.

(** [json.load] of the file at [p]. *)
Definition json_load (fs : filesystem) (p : string) : option store :=
  match fs !! resolve P p with
  | Some (JsonFile doc) => Some doc
  | _ => None
  end.

(** [checksum(filepath)]. *)
Definition checksum (fs : filesystem) (filepath : string) : option string :=
  match read_file fs filepath with
  | Some data => checksum_bytes (sha256 P) data
  | None => None
  end.
End FileSystem.

(** ** The process: arguments, output, state *)

(** [argparse.Namespace] after [parse_args]. *)
Record Namespace : Type := mkArgs {
  dir : option (list string);
  out : string;
  gitignore : bool;
  force : bool;
  metafile : string;
  verbose : bool
}.

(** Lines printed.  The first group is printed whatever the flags; the
    [V...] group only with [--verbose]. *)
Inductive message : Type :=
| MsgNoSearchDir                       (* l.100 *)
| MsgDirMissing (d : string)           (* l.105 *)
| MsgDirNotDir (d : string)            (* l.108 *)
| MsgOutNotDir (d : string)            (* l.116 *)
| MsgNotInModule                       (* l.190 *)
| MsgBadSignature                      (* l.198, l.204 *)
| MsgNoFigaroname                      (* l.209 *)
| MsgNoFigaroext                       (* l.214 *)
| MsgCorrupt (metafile : string)       (* l.229, l.254 *)
| VLoading (metafile : string)
| VInitializing
| VExtracting
| VFoundFiles (n : nat)
| VFiltering
| VSearching (file : string)
| VFoundTagged (n : nat)
| VNoTagged
| VForced
| VUnchanged (fp fnc : string)
| VChanged (fp fnc : string)
| VCalling (fp fnc : string)
| VFinished (save_path : string).

Inductive exception : Type :=
| ValueError | OSError | JSONDecodeError | SyntaxError
| ImportError | AttributeError | TypeError | RoutineError.

(** How the process ends: falling off the end of [main], [exit(code)], or an
    exception nobody catches. *)
Inductive outcome : Type :=
| Done
| Exit (code : Z)
| Raised (e : exception).

(** The exit status the shell sees; the interpreter turns an uncaught
    exception into status 1. *)
Definition exit_code (o : outcome) : Z :=
  match o with
  | Done => 0
  | Exit code => code
  | Raised _ => 1
  end.

(** [executed] is a ghost trace: the (file, routine) pairs whose function was
    called, oldest first. *)
Record state : Type := mkState {
  meta_content : store;
  fs : filesystem;
  stdout : list message;
  executed : list (string * string)
}.

Definition initial (fs0 : filesystem) : state := mkState ∅ fs0 [] [].

(** ** A state and exit monad *)

Inductive result (A : Type) : Type :=
| Cont (a : A) (st : state)
| Stop (o : outcome) (st : state).
Arguments Cont {A} a st.
Arguments Stop {A} o st.

Definition M (A : Type) : Type := state -> result A.

Definition ret {A} (a : A) : M A := fun st => Cont a st.

Definition bind {A B} (m : M A) (k : A -> M B) : M B :=
  fun st =>
    match m st with
    | Cont a st' => k a st'
    | Stop o st' => Stop o st'
    end.

Declare Scope run_scope.
Delimit Scope run_scope with run.
Notation "x <- m ;; k" := (bind m (fun x => k))
  (at level 100, m at next level, right associativity) : run_scope.
Notation "m ;;; k" := (bind m (fun _ => k))
  (at level 100, right associativity) : run_scope.
Local Open Scope run_scope.

Definition raise {A} (e : exception) : M A := fun st => Stop (Raised e) st.
Definition exit {A} (code : Z) : M A := fun st => Stop (Exit code) st.

Definition print (m : message) : M unit :=
  fun st =>
    Cont tt (mkState (meta_content st) (fs st) (stdout st ++ [m]) (executed st)).

Definition get_fs : M filesystem := fun st => Cont (fs st) st.
Definition put_fs (fs' : filesystem) : M unit :=
  fun st => Cont tt (mkState (meta_content st) fs' (stdout st) (executed st)).

Definition get_meta : M store := fun st => Cont (meta_content st) st.
Definition put_meta (m : store) : M unit :=
  fun st => Cont tt (mkState m (fs st) (stdout st) (executed st)).

Definition log_call (fp fnc : string) : M unit :=
  fun st =>
    Cont tt (mkState (meta_content st) (fs st) (stdout st)
                     (executed st ++ [(fp, fnc)])).

Definition when (b : bool) (m : M unit) : M unit := if b then m else ret tt.

(** [for x in l: body(x)]. *)
Fixpoint for_each {A} (body : A -> M unit) (l : list A) : M unit :=
  match l with
  | [] => ret tt
  | x :: l' => body x ;;; for_each body l'
  end.

(** [for x in l: acc = body(x, acc)]. *)
Fixpoint for_fold {A B} (body : A -> B -> M B) (l : list A) (acc : B) : M B :=
  match l with
  | [] => ret acc
  | x :: l' => acc' <- body x acc ;; for_fold body l' acc'
  end.

(** ** Insertion-ordered dictionaries ([fig_generators]) *)

Definition pydict (V : Type) : Type := list (string * V).

(** [d[k] = v]: a present key keeps its place. *)
Fixpoint dict_set {V} (k : string) (v : V) (d : pydict V) : pydict V :=
  match d with
  | [] => [(k, v)]
  | (k', v') :: d' =>
      if String.eqb k' k then (k', v) :: d' else (k', v') :: dict_set k v d'
  end.

Fixpoint dict_get {V} (k : string) (d : pydict V) : option V :=
  match d with
  | [] => None
  | (k', v') :: d' => if String.eqb k' k then Some v' else dict_get k d'
  end.

(** ** The staleness decision (lines 225-267) *)

Inductive decision : Type :=
| Skip       (* l.244: unchanged and the figure is there *)
| Run        (* falls through to the call at l.272 *)
| Corrupt.   (* l.232, l.257: reported, not called *)

(** [d.append(p)] unless [p in d] (lines 258-259). *)
Definition add_dependent (p : string) (d : list string) : list string :=
  if bool_decide (p ∈ d) then d else (d ++ [p])%list.

(** Lines 253-259, on the record as lines 228-251 left it. *)
Definition check_dependents (metafile full_fp dependent : string)
    (meta_content : store) (said : list message)
    : decision * store * list message :=
  match meta_content !! full_fp with
  | Some r =>
      match rec_dependents r with
      | None => (Corrupt, meta_content, (said ++ [MsgCorrupt metafile])%list)
      | Some deps =>
          (Run,
           <[full_fp := mkRecord (rec_checksum r)
                                 (Some (add_dependent dependent deps))]>
             meta_content,
           said)
      end
  | None => (Corrupt, meta_content, (said ++ [MsgCorrupt metafile])%list)
  end.

(** Lines 225-267.  [artifact] is [save_path.exists() and save_path.is_file()],
    [dependent] is [str(save_path.resolve())]; the result is the decision,
    the store after it and the lines printed. *)
Definition evaluate (args : Namespace) (fp fnc : string)
    (full_fp script_checksum : string) (artifact : bool) (dependent : string)
    (meta_content : store) : decision * store * list message :=
  match meta_content !! full_fp with
  | Some r =>
      match rec_checksum r with
      | None => (Corrupt, meta_content, [MsgCorrupt (metafile args)])
      | Some stored =>
          if String.eqb stored script_checksum && negb (force args) then
            if artifact then
              (Skip, meta_content,
               if verbose args then [VUnchanged fp fnc] else [])
            else
              check_dependents (metafile args) full_fp dependent meta_content []
          else
            check_dependents (metafile args) full_fp dependent
              (<[full_fp := mkRecord (Some script_checksum) (rec_dependents r)]>
                 meta_content)
              (if verbose args && negb (force args)
               then [VChanged fp fnc] else [])
      end
  | None =>
      (Run,
       <[full_fp := mkRecord (Some script_checksum) (Some [dependent])]>
         meta_content,
       [])
  end.

(** ** main (lines 42-295) *)

Section Main.
Context (P : platform) (args : Namespace).

Definition vprint (m : message) : M unit := when (verbose args) (print m).

(** Lines 102-109. *)
Definition validate_dir (d : string) : M unit :=
  fs <- get_fs ;;
  if negb (path_exists P fs d) then print (MsgDirMissing d) ;;; exit 1
  else if negb (is_dir P fs d) then print (MsgDirNotDir d) ;;; exit 1
  else ret tt.

(** Lines 98-117. *)
Definition validate : M unit :=
  match dir args with
  | None | Some [] => print MsgNoSearchDir ;;; exit 1
  | Some dirs =>
      for_each validate_dir dirs ;;;
      fs <- get_fs ;;
      (if negb (path_exists P fs (out args)) then
         match mkdir P fs (out args) with
         | Some fs' => put_fs fs'
         | None => raise OSError
         end
       else ret tt) ;;;
      fs <- get_fs ;;
      if negb (is_dir P fs (out args))
      then print (MsgOutNotDir (out args)) ;;; exit 1
      else ret tt
  end.

(** Lines 119-131. *)
Definition load_metadata : M unit :=
  fs <- get_fs ;;
  if path_exists P fs (metafile args) then
    vprint (VLoading (metafile args)) ;;;
    match json_load P fs (metafile args) with
    | Some doc => put_meta doc
    | None => raise JSONDecodeError
    end
  else
    vprint VInitializing ;;;
    put_meta ∅.

(** Lines 140-142: the comprehension over [args.dir]. *)
Definition src_files (fs : filesystem) : list string :=
  flat_map (fun d => List.filter (is_file P fs) (rglob_py P fs d))
           (default [] (dir args)).

(** Lines 150-167: one turn of the filtering loop. *)
Definition filter_file (file : string) (fig_generators : pydict (list string))
    : M (pydict (list string)) :=
  (if verbose args then
     match relative_to_cwd P (resolve P file) with
     | Some rel => print (VSearching rel)
     | None => raise ValueError
     end
   else ret tt) ;;;
  fs <- get_fs ;;
  match read_file P fs file with
  | None => raise OSError
  | Some content =>
      match ast_parse P content with
      | None => raise SyntaxError
      | Some tree =>
          let tag_filter := visit_Module tree FigCtlTagFilter_init in
          if (0 <? List.length (tagged_functions tag_filter))%nat then
            vprint (VFoundTagged (List.length (tagged_functions tag_filter))) ;;;
            ret (dict_set file (tagged_functions tag_filter) fig_generators)
          else
            vprint VNoTagged ;;;
            ret fig_generators
      end
  end.

(** Lines 137-167. *)
Definition find_generators : M (pydict (list string)) :=
  vprint VExtracting ;;;
  fs <- get_fs ;;
  let files := src_files fs in
  vprint (VFoundFiles (List.length files)) ;;;
  vprint VFiltering ;;;
  for_fold filter_file files [].

(** Lines 188-276: one turn of the loop over the routines of a file. *)
Definition run_routine (fp : string) (module : pymodule) (fnc : string)
    : M unit :=
  match module !! fnc with
  | None =>
      print MsgNotInModule ;;;                 (* not hasattr, l.189 *)
      raise AttributeError                     (* getattr, l.193 *)
  | Some NotCallable => raise TypeError        (* inspect.signature, l.194 *)
  | Some (Function fig_gen) =>
      match params fig_gen with
      | [param] =>
          match param with
          | AnnOther => print MsgBadSignature  (* continue, l.207 *)
          | AnnPath =>
              match figaroname fig_gen with
              | None =>
                  print MsgNoFigaroname ;;;    (* not hasattr, l.208 *)
                  raise AttributeError         (* getattr, l.212 *)
              | Some file_name =>
                  match figaroext fig_gen with
                  | None =>
                      print MsgNoFigaroext ;;; (* not hasattr, l.213 *)
                      raise AttributeError     (* getattr, l.217 *)
                  | Some file_ext =>
                      let save_path :=
                        joinpath P (out args) (file_name ++ "." ++ file_ext) in
                      let full_fp := resolve P fp in
                      fs <- get_fs ;;
                      match checksum P fs fp with
                      | None => raise OSError
                      | Some script_checksum =>
                          meta <- get_meta ;;
                          let '(d, meta', said) :=
                            evaluate args fp fnc full_fp script_checksum
                              (is_file P fs save_path)
                              (resolve P save_path) meta in
                          put_meta meta' ;;;
                          for_each print said ;;;
                          match d with
                          | Skip | Corrupt => ret tt     (* continue *)
                          | Run =>
                              vprint (VCalling fp fnc) ;;;
                              log_call fp fnc ;;;
                              match call fig_gen save_path fs with
                              | None => raise RoutineError
                              | Some fs' =>
                                  put_fs fs' ;;;
                                  vprint (VFinished save_path)
                              end
                          end
                      end
                  end
              end
          end
      | _ => print MsgBadSignature             (* continue, l.201 *)
      end
  end.

(** Lines 175-276: one turn of the loop over [fig_generators.items()]. *)
Definition run_file (item : string * list string) : M unit :=
  let '(fp, fncts) := item in
  fs <- get_fs ;;
  match read_file P fs fp with
  | None => raise OSError
  | Some source =>
      match exec_module P source with
      | None => raise ImportError              (* exec_module, l.186 *)
      | Some module => for_each (run_routine fp module) fncts
      end
  end.

(** Lines 282-289. *)
Definition cleanup : M unit :=
  fs <- get_fs ;;
  if negb (is_dir P fs (out args)) then raise OSError
  else
    match iterdir P fs (out args) with
    | [] =>
        match rmdir P fs (out args) with
        | Some fs' => put_fs fs'
        | None => raise OSError
        end
    | _ :: _ =>
        if gitignore args then
          match write_file P fs (joinpath P (out args) ".gitignore")
                           (File ["*"%byte]) with
          | Some fs' => put_fs fs'
          | None => raise OSError
          end
        else ret tt
    end.

(** Lines 294-295. *)
Definition save_metadata : M unit :=
  fs <- get_fs ;;
  meta <- get_meta ;;
  match write_file P fs (metafile args) (JsonFile meta) with
  | Some fs' => put_fs fs'
  | None => raise OSError
  end.

(** Lines 172-276. *)
Definition run_generators (fig_generators : pydict (list string)) : M unit :=
  when (verbose args && force args) (print VForced) ;;;
  for_each run_file fig_generators.

Definition main : M unit :=
  validate ;;;
  load_metadata ;;;
  fig_generators <- find_generators ;;
  run_generators fig_generators ;;;
  cleanup ;;;
  save_metadata.

(** The process started on the file system [fs0]. *)
Definition run_main (fs0 : filesystem) : outcome * state :=
  match main (initial fs0) with
  | Cont _ st => (Done, st)
  | Stop o st => (o, st)
  end.
End Main.

(** ** The discovery contract, in the words of the specification *)

(** A routine definition as the specification sees it: a name with its
    decorators. *)
Record routine_def : Type := mkDef {
  def_name : string;
  def_decorators : list expr
}.

(** Every [def] of a statement, at any depth, in the order of the text. *)
Fixpoint defs_of (node : stmt) : list routine_def :=
  match node with
  | FunctionDef name decs body => mkDef name decs :: flat_map defs_of body
  | AsyncFunctionDef _ _ body => flat_map defs_of body
  | ClassDef _ _ body => flat_map defs_of body
  | If _ body orelse => flat_map defs_of body ++ flat_map defs_of orelse
  | Expr _ => []
  | Pass => []
  end.

Definition all_defs (tree : module_ast) : list routine_def :=
  flat_map defs_of tree.

(** The [def]s that are direct children of the module. *)
Definition top_level_defs (tree : module_ast) : list routine_def :=
  flat_map (fun node =>
              match node with
              | FunctionDef name decs _ => [mkDef name decs]
              | _ => []
              end) tree.

(** The tag marker: a decorator that is a call of the bare name. *)
Definition tag_marker (dec : expr) : Prop :=
  exists args, dec = Call (Name "figarotag") args.

Definition markers (d : routine_def) : list expr :=
  List.filter is_tag_call (def_decorators d).

Definition tagged (d : routine_def) : bool :=
  existsb is_tag_call (def_decorators d).

(** What one definition adds to the result: its name, once per marker. *)
Definition entries_of (d : routine_def) : list string :=
  List.map (fun _ => def_name d) (markers d).

(** Names of the tagged definitions, in declaration order. *)
Definition tagged_names (defs : list routine_def) : list string :=
  List.map def_name (List.filter tagged defs).

(** ** A small platform to run the model on *)

Module Toy.

(** The directory part of an absolute path. *)
Fixpoint dirname_from (s seen last : string) : string :=
  match s with
  | EmptyString => last
  | String c s' =>
      if Ascii.eqb c "/"
      then dirname_from s' (seen ++ "/") seen
      else dirname_from s' (seen ++ String c "") last
  end.

Definition dirname (p : string) : string :=
  let d := dirname_from p "" "/" in
  if String.eqb d "" then "/" else d.

(** A source text with the tree the parser gives and the module its
    execution gives. *)
Record source : Type := mkSource {
  text : string;
  tree : option module_ast;
  namespace : option pymodule
}.

Fixpoint find_source (table : list source) (content : string)
    : option source :=
  match table with
  | [] => None
  | s :: table' =>
      if String.eqb (text s) content then Some s
      else find_source table' content
  end.

(** A hash that is the identity: the state is the bytes fed so far. *)
Definition plain_hash : hashlib :=
  mkHashlib (list byte) [] (fun s chunk => (s ++ chunk)%list)
            string_of_list_byte.

(** Paths are absolute and resolved; [listing] says what [rglob] finds
    under each search root; [table] gives the meaning of source texts. *)
Definition make (listing : string -> list string) (table : list source)
    : platform :=
  {| resolve := fun p => p;
     joinpath := fun p name => p ++ "/" ++ name;
     parent := dirname;
     relative_to_cwd := fun p => Some p;
     rglob_py := fun _ d => listing d;
     iterdir := fun fs d =>
       List.filter (fun k => String.eqb (dirname k) d)
                   (List.map fst (map_to_list fs));
     ast_parse := fun content =>
       match find_source table (string_of_list_byte content) with
       | Some s => tree s
       | None => None
       end;
     exec_module := fun content =>
       match find_source table (string_of_list_byte content) with
       | Some s => namespace s
       | None => None
       end;
     json_text := fun _ => list_byte_of_string "{}";
     sha256 := plain_hash |}.

(** A well-behaved generator: it writes a file at the save path. *)
Definition savefig (data : string) : string -> filesystem -> option filesystem :=
  fun save_path fs => Some (<[save_path := File (list_byte_of_string data)]> fs).

(** [def name(save_path: Path) -> None] before decoration. *)
Definition plain_def (data : string) : callable :=
  mkCallable [AnnPath] None None (savefig data).

Definition tag (kwargs : string) : expr :=
  Call (Name "figarotag") [Constant kwargs].

Definition script (p : string) (content : string) : string * node :=
  (p, File (list_byte_of_string content)).

(** example/figscripts/line.py *)
Definition line_py : source :=
  mkSource "line.py text"
    (Some [FunctionDef "fig_line" [tag "name='line'"] [Pass]])
    (Some {[ "fig_line" :=
               Function (figarotag (Some "line") None "fig_line"
                                   (plain_def "line pdf")) ]}).

(** example/figscripts/parabola.py *)
Definition parabola_py : source :=
  mkSource "parabola.py text"
    (Some [FunctionDef "parabola_function" [] [Pass];
           FunctionDef "fig_parabola" [tag "name='curve', ext='pdf'"] [Pass];
           FunctionDef "fig_parabola2" [tag "name='curve2', ext='pdf'"] [Pass]])
    (Some (<[ "parabola_function" :=
                Function (mkCallable [AnnOther; AnnOther; AnnOther; AnnOther]
                                     None None (fun _ fs => Some fs)) ]>
           (<[ "fig_parabola" :=
                 Function (figarotag (Some "curve") (Some "pdf") "fig_parabola"
                                     (plain_def "curve pdf")) ]>
           {[ "fig_parabola2" :=
                 Function (figarotag (Some "curve2") (Some "pdf") "fig_parabola2"
                                     (plain_def "curve2 pdf")) ]}))).

Definition example_listing (d : string) : list string :=
  if String.eqb d "/w/example"
  then ["/w/example/figscripts/line.py"; "/w/example/figscripts/parabola.py"]
  else [].

Definition example_platform : platform :=
  make example_listing [line_py; parabola_py].

Definition example_fs : filesystem :=
  list_to_map
    [("/", Dir); ("/w", Dir); ("/w/example", Dir);
     ("/w/example/figscripts", Dir);
     script "/w/example/figscripts/line.py" "line.py text";
     script "/w/example/figscripts/parabola.py" "parabola.py text"].

Definition example_args : Namespace :=
  mkArgs (Some ["/w/example"]) "/w/figures" false false "/w/.figaro.meta" false.

End Toy.

(** ** Vocabulary of the statements *)

(** The state a computation leaves, however it ends. *)
Definition final {A} (r : result A) : state :=
  match r with
  | Cont _ st => st
  | Stop _ st => st
  end.

(** Nothing but the output differs. *)
Definition same_but_stdout (st st' : state) : Prop :=
  fs st' = fs st /\ meta_content st' = meta_content st /\
  executed st' = executed st.

(** [m] relates the state it starts in to the state it leaves. *)
Definition keeps {A} (R : state -> state -> Prop) (m : M A) : Prop :=
  forall st, R st (final (m st)).

(** [m] never calls [exit]: it returns or raises. *)
Definition never_exits {A} (m : M A) : Prop :=
  forall st o st', m st = Stop o st' -> exists e, o = Raised e.

(** Every record is still there, and a dependents list still holds what it
    held. *)
Definition dependents_grow (m m' : store) : Prop :=
  forall k r,
    m !! k = Some r ->
    exists r',
      m' !! k = Some r' /\
      forall deps,
        rec_dependents r = Some deps ->
        exists deps', rec_dependents r' = Some deps' /\
                      forall x, x ∈ deps -> x ∈ deps'.

Definition store_grows (st st' : state) : Prop :=
  dependents_grow (meta_content st) (meta_content st').

(** The entry the loop leaves for a file it has looked at, given the entry
    [before] it. *)
Definition entry_after (tree : module_ast) (before : option (list string))
    : option (list string) :=
  if (0 <? List.length (discover_file tree))%nat
  then Some (discover_file tree) else before.

(** A regular file. *)
Definition is_reg (n : option node) : bool :=
  match n with
  | Some (File _) | Some (JsonFile _) => true
  | _ => false
  end.

(** Regular files stay, and only those at the paths [W] may change. *)
Definition quiet (W : string -> Prop) (fs1 fs2 : filesystem) : Prop :=
  forall q, is_reg (fs1 !! q) = true ->
            fs2 !! q = fs1 !! q \/ (W q /\ is_reg (fs2 !! q) = true).

Section Vocabulary.
Context (P : platform) (args : Namespace).

(** The function the loop gets to evaluate, with its save path: the name
    resolves to a function of one [Path] parameter carrying both
    attributes (lines 189-218). *)
Definition target (module : pymodule) (fnc : string)
    : option (callable * string) :=
  match module !! fnc with
  | Some (Function fig_gen) =>
      match params fig_gen, figaroname fig_gen, figaroext fig_gen with
      | [AnnPath], Some file_name, Some file_ext =>
          Some (fig_gen, joinpath P (out args) (file_name ++ "." ++ file_ext))
      | _, _, _ => None
      end
  | _ => None
  end.

(** Input validation fails, in the words of the specification: no search
    directory, a search root that does not exist or is not a directory, or
    an output path that exists and is not a directory. *)
Definition validation_failure (fs0 : filesystem) : Prop :=
  (dir args = None \/ dir args = Some []) \/
  (exists dirs d, dir args = Some dirs /\ In d dirs /\
                  (path_exists P fs0 d = false \/ is_dir P fs0 d = false)) \/
  (path_exists P fs0 (out args) = true /\ is_dir P fs0 (out args) = false).

(** What follows validation in [main]. *)
Definition after_validation : M unit :=
  (load_metadata P args ;;;
   fig_generators <- find_generators P args ;;
   run_generators P args fig_generators ;;;
   cleanup P args ;;;
   save_metadata P args)%run.

(** [ast.parse] of the text of a file. *)
Definition parsed (fs0 : filesystem) (file : string) : option module_ast :=
  match read_file P fs0 file with
  | Some content => ast_parse P content
  | None => None
  end.

(** The paths a run writes: the store, the ignore file and the save paths
    of the routines of any module. *)
Definition written (q : string) : Prop :=
  q = resolve P (metafile args) \/
  q = resolve P (joinpath P (out args) ".gitignore") \/
  exists content module fnc g sp,
    exec_module P content = Some module /\
    target module fnc = Some (g, sp) /\
    q = resolve P sp.

(** The collaborator contract: a call that returns has left a regular file
    at the save path and has not changed or removed another regular file. *)
Definition honours_contract (g : callable) (sp : string) : Prop :=
  forall fs1 fs2,
    call g sp fs1 = Some fs2 ->
    is_file P fs2 sp = true /\
    forall q, is_reg (fs1 !! q) = true -> q <> resolve P sp ->
              fs2 !! q = fs1 !! q.
End Vocabulary.

Section SettlingVocabulary.
Context (P : platform) (args : Namespace) (fs0 : filesystem).

(** The scripts found at the start, and a file system that still holds
    them as they were. *)
Definition sources : list string := src_files P args fs0.

Definition sources_intact (fs1 : filesystem) : Prop :=
  forall fp, In fp sources -> fs1 !! resolve P fp = fs0 !! resolve P fp.

(** Records stay; an absent checksum stays absent with the record
    unchanged, the checksum of the file as it was at the start stays, and
    absent dependents stay absent. *)
Definition store_settles (m m' : store) : Prop :=
  forall fp r,
    m !! resolve P fp = Some r ->
    exists r',
      m' !! resolve P fp = Some r' /\
      (rec_checksum r = None -> r' = r) /\
      (forall c, rec_checksum r = Some c -> checksum P fs0 fp = Some c ->
                 rec_checksum r' = Some c) /\
      (rec_dependents r = None -> rec_dependents r' = None).

Definition settles (st st' : state) : Prop :=
  quiet (written P args) (fs st) (fs st') /\
  store_settles (meta_content st) (meta_content st').

(** A routine of [fp] is settled when a second look at it cannot decide
    [Run]. *)
Definition settled (st : state) (fp save_path : string) : Prop :=
  exists r,
    meta_content st !! resolve P fp = Some r /\
    (rec_checksum r = None \/
     exists c, rec_checksum r = Some c /\ checksum P fs0 fp = Some c /\
               (rec_dependents r = None \/
                is_file P (fs st) save_path = true)).

(** The routines of one file, settled after the file's turn. *)
Definition file_settled (st : state) (item : string * list string) : Prop :=
  forall content module fnc g sp,
    read_file P fs0 item.1 = Some content ->
    exec_module P content = Some module ->
    In fnc item.2 ->
    target P args module fnc = Some (g, sp) ->
    settled st item.1 sp.
End SettlingVocabulary.

(** ** Inputs for the examples *)

(** A class with a tagged method, then a function carrying the marker twice. *)
Definition nested_example : module_ast :=
  [ClassDef "Figures" []
     [FunctionDef "method" [Call (Name "figarotag") []] [Pass]];
   FunctionDef "f" [Call (Name "figarotag") []; Call (Name "figarotag") []]
     [Pass]].

(** One file with a bare decorator, a qualified call and a proper marker. *)
Definition decorator_forms : module_ast :=
  [FunctionDef "bare" [Name "figarotag"] [Pass];
   FunctionDef "qualified"
     [Call (Attribute (Name "figaro") "figarotag") [Constant "name='q'"]] [Pass];
   FunctionDef "proper" [Call (Name "figarotag") []] [Pass]].

(** The example tree with a store whose record for [line.py] has no
    [checksum] key. *)
Definition fs_without_checksum : filesystem :=
  <["/w/.figaro.meta" :=
      JsonFile {[ "/w/example/figscripts/line.py" := mkRecord None (Some []) ]}]>
    Toy.example_fs.

(** The example tree with a store whose record for [line.py] has a stale
    checksum and no [dependents] key. *)
Definition fs_without_dependents : filesystem :=
  <["/w/.figaro.meta" :=
      JsonFile {[ "/w/example/figscripts/line.py" :=
                    mkRecord (Some "older text") None ]}]>
    Toy.example_fs.

(** A script whose tagged routine is a method of a class: discovery reports
    [method], the module has no attribute of that name. *)
Definition figures_py : Toy.source :=
  Toy.mkSource "figures.py text"
    (Some [ClassDef "Figures" []
             [FunctionDef "method" [Toy.tag ""] [Pass]]])
    (Some {[ "Figures" := NotCallable ]}).

(** A script whose tagged routine is wrapped by a second decorator that
    returns a fresh function: one [Path] parameter, no attributes. *)
Definition wrapped_py : Toy.source :=
  Toy.mkSource "wrapped.py text"
    (Some [FunctionDef "fig_wrapped" [Name "timed"; Toy.tag ""] [Pass]])
    (Some {[ "fig_wrapped" := Function (Toy.plain_def "wrapped pdf") ]}).

Definition first_then_line (first : string) (d : string) : list string :=
  if String.eqb d "/w/example"
  then [first; "/w/example/figscripts/line.py"]
  else [].

Definition fs_with (p text : string) : filesystem :=
  <[p := File (list_byte_of_string text)]> Toy.example_fs.

(** A script that does not parse. *)
Definition broken_py : Toy.source :=
  Toy.mkSource "broken.py text" None None.

Definition broken_platform : platform :=
  Toy.make (first_then_line "/w/example/figscripts/broken.py")
           [broken_py; Toy.line_py].

Definition broken_fs : filesystem :=
  fs_with "/w/example/figscripts/broken.py" "broken.py text".

(** A tagged routine with two parameters: reported, passed over, and the
    run still ends with exit code 0. *)
Definition two_params_py : Toy.source :=
  Toy.mkSource "two.py text"
    (Some [FunctionDef "fig_two" [Toy.tag ""] [Pass]])
    (Some {[ "fig_two" :=
               Function (figarotag None None "fig_two"
                           (mkCallable [AnnPath; AnnOther] None None
                                       (Toy.savefig "two pdf"))) ]}).

(** The theorem at the second routine of [parabola.py], with the first
    figure already listed: the decision is [Run] and both figures are listed
    afterwards. *)
Definition parabola_module : pymodule :=
  default ∅ (Toy.namespace Toy.parabola_py).

Definition after_fig_parabola : state :=
  mkState {[ "/w/example/figscripts/parabola.py" :=
               mkRecord (Some "old parabola.py text")
                        (Some ["/w/figures/curve.pdf"]) ]}
          (<["/w/figures" := Dir]> Toy.example_fs) [] [].

(** The scenario of the specification: one script with one tagged routine,
    no store yet. *)
Definition line_platform : platform :=
  Toy.make (fun d => if String.eqb d "/w/example"
                     then ["/w/example/figscripts/line.py"] else [])
           [Toy.line_py].

(** ** Vocabulary of the further properties *)

(** The file system discovery sees: the output directory has been made when
    it was missing (line 114). *)
Definition after_mkdir (P : platform) (args : Namespace) (fs0 : filesystem)
    : filesystem :=
  if path_exists P fs0 (out args) then fs0
  else <[resolve P (out args) := Dir]> fs0.

(** The same arguments with [--verbose] set or not. *)
Definition with_verbose (b : bool) (args : Namespace) : Namespace :=
  mkArgs (dir args) (out args) (gitignore args) (force args) (metafile args) b.

(** Two states that differ in their output at most, and two results that
    agree up to that. *)
Definition same_effects (st st' : state) : Prop :=
  fs st = fs st' /\ meta_content st = meta_content st' /\
  executed st = executed st'.

Definition same_result {A} (r r' : result A) : Prop :=
  match r, r' with
  | Cont a st, Cont a' st' => a = a' /\ same_effects st st'
  | Stop o st, Stop o' st' => o = o' /\ same_effects st st'
  | _, _ => False
  end.

(** Two computations that do the same but for what they print. *)
Definition alike {A} (m m' : M A) : Prop :=
  forall st st', same_effects st st' -> same_result (m st) (m' st').

(** The paths where figures and the ignore file go. *)
Definition artifact_path (P : platform) (args : Namespace) (q : string) : Prop :=
  q = resolve P (joinpath P (out args) ".gitignore") \/
  exists content module fnc g sp,
    exec_module P content = Some module /\
    target P args module fnc = Some (g, sp) /\
    q = resolve P sp.

(** A store all of whose records have both fields and list no dependent
    twice. *)
Definition well_formed (m : store) : Prop :=
  forall k r,
    m !! k = Some r ->
    exists c deps, r = mkRecord (Some c) (Some deps) /\ NoDup deps.

(** The calls the loop of lines 175-276 can make, in its order. *)
Definition listed_calls (fig_generators : pydict (list string))
    : list (string * string) :=
  flat_map (fun item => List.map (pair item.1) item.2) fig_generators.

(** The store [main] starts from (lines 123-131), when loading succeeds. *)
Definition loaded_store (P : platform) (args : Namespace) (fs0 : filesystem)
    : store :=
  default ∅ (json_load P fs0 (metafile args)).

(** A module whose only attribute is a decorated function. *)
Definition one_routine_module (fnc : string) (g : callable) : pymodule :=
  {[ fnc := Function g ]}.

(** The example platform with the working directory elsewhere: no script
    path can be given relative to it. *)
Definition outside_cwd_platform : platform :=
  mkPlatform (resolve Toy.example_platform) (joinpath Toy.example_platform)
             (parent Toy.example_platform) (fun _ => None)
             (rglob_py Toy.example_platform) (iterdir Toy.example_platform)
             (ast_parse Toy.example_platform) (exec_module Toy.example_platform)
             (json_text Toy.example_platform) (sha256 Toy.example_platform).

(** The file system moves quietly (see [quiet]). *)
Definition fs_quiet (W : string -> Prop) (st st' : state) : Prop :=
  quiet W (fs st) (fs st').

(** The tree with the unparsable script and a store from an earlier run. *)
Definition broken_fs_with_store : filesystem :=
  <["/w/.figaro.meta" :=
      JsonFile {[ "/w/example/figscripts/line.py" :=
                    mkRecord (Some "older text") (Some ["/w/figures/line.pdf"]) ]}]>
    broken_fs.

(** The example tree with a store that still has the record of a script
    that is no longer there. *)
Definition fs_with_old_record : filesystem :=
  <["/w/.figaro.meta" :=
      JsonFile {[ "/w/example/figscripts/gone.py" :=
                    mkRecord (Some "gone.py text") (Some ["/w/figures/gone.pdf"]) ]}]>
    Toy.example_fs.

(** The store stays well formed, and the record under [k] stays as it is. *)
Definition keeps_well_formed (st st' : state) : Prop :=
  well_formed (meta_content st) -> well_formed (meta_content st').

Definition keeps_record (k : string) (st st' : state) : Prop :=
  meta_content st' !! k = meta_content st !! k.

(** [q] is the resolved save path of a routine named [fnc] of some module
    that loads. *)
Definition save_path_of (P : platform) (args : Namespace) (fnc q : string)
    : Prop :=
  exists content module g sp,
    exec_module P content = Some module /\
    target P args module fnc = Some (g, sp) /\
    q = resolve P sp.

(** Every call of [calls] is on record in [m]: the script has a record with
    both fields that lists a save path of the routine. *)
Definition calls_recorded (P : platform) (args : Namespace)
    (calls : list (string * string)) (m : store) : Prop :=
  forall fp fnc,
    In (fp, fnc) calls ->
    exists c deps q,
      m !! resolve P fp = Some (mkRecord (Some c) (Some deps)) /\
      save_path_of P args fnc q /\ In q deps.

Definition keeps_calls_recorded (P : platform) (args : Namespace)
    (st st' : state) : Prop :=
  calls_recorded P args (executed st) (meta_content st) ->
  calls_recorded P args (executed st') (meta_content st').

(** The example arguments with [--gitignore]. *)
Definition ignoring_args : Namespace :=
  mkArgs (Some ["/w/example"]) "/w/figures" true false "/w/.figaro.meta" false.

(** * Discovery *)

(** Induction on statements that reaches the nested statement lists. *)
Lemma stmt_nested_ind (Q : stmt -> Prop) :
  (forall name decs body, Forall Q body -> Q (FunctionDef name decs body)) ->
  (forall name decs body, Forall Q body -> Q (AsyncFunctionDef name decs body)) ->
  (forall name decs body, Forall Q body -> Q (ClassDef name decs body)) ->
  (forall test body orelse,
      Forall Q body -> Forall Q orelse -> Q (If test body orelse)) ->
  (forall value, Q (Expr value)) ->
  Q Pass ->
  forall node, Q node.
Proof.
  intros HF HA HC HI HE HP.
  fix IH 1.
  assert (IHs : forall l, Forall Q l).
  { fix IHl 1. intros [|n l]; constructor; [apply IH | apply IHl]. }
  intros [name decs body|name decs body|name decs body|test body orelse|value|].
  - apply HF, IHs.
  - apply HA, IHs.
  - apply HC, IHs.
  - apply HI; apply IHs.
  - apply HE.
  - apply HP.
Qed.

Lemma is_tag_call_marker dec : is_tag_call dec = true <-> tag_marker dec.
Proof.
  unfold tag_marker. split.
  - destruct dec as [| |func args|]; simpl; try discriminate.
    destruct func as [id| | |]; simpl; try discriminate.
    intros Heq. apply String.eqb_eq in Heq. subst id. by exists args.
  - intros [args ->]. reflexivity.
Qed.

Lemma scan_decorators_entries name decs self :
  scan_decorators name decs self =
  mkFilter (tagged_functions self ++ entries_of (mkDef name decs)).
Proof.
  unfold scan_decorators, entries_of, markers. simpl.
  revert self. induction decs as [|dec decs IH]; intros [acc]; simpl.
  - by rewrite app_nil_r.
  - rewrite IH. destruct (is_tag_call dec); simpl; [|done].
    by rewrite <- app_assoc.
Qed.

Lemma generic_visit_entries body self :
  Forall (fun node => forall s,
            visit node s =
            mkFilter (tagged_functions s ++ flat_map entries_of (defs_of node)))
         body ->
  fold_left (fun s n => visit n s) body self =
  mkFilter (tagged_functions self
            ++ flat_map entries_of (flat_map defs_of body)).
Proof.
  intros Hbody. revert self.
  induction Hbody as [|node body Hnode _ IH]; intros [acc]; simpl.
  - by rewrite app_nil_r.
  - rewrite Hnode, IH. simpl.
    by rewrite flat_map_app, app_assoc.
Qed.

Lemma visit_entries node self :
  visit node self =
  mkFilter (tagged_functions self ++ flat_map entries_of (defs_of node)).
Proof.
  revert self. induction node using stmt_nested_ind; intros self; simpl.
  - rewrite generic_visit_entries by done.
    rewrite scan_decorators_entries. simpl. by rewrite <- app_assoc.
  - by rewrite generic_visit_entries.
  - by rewrite generic_visit_entries.
  - rewrite !generic_visit_entries by done. simpl.
    by rewrite flat_map_app, app_assoc.
  - destruct self. simpl. by rewrite app_nil_r.
  - destruct self. simpl. by rewrite app_nil_r.
Qed.

Lemma discover_file_entries tree :
  discover_file tree = flat_map entries_of (all_defs tree).
Proof.
  unfold discover_file, visit_Module, all_defs.
  rewrite generic_visit_entries; [done|].
  apply Forall_forall. intros node _ s. apply visit_entries.
Qed.

Lemma in_entries_of n d : In n (entries_of d) <-> n = def_name d /\ tagged d = true.
Proof.
  unfold entries_of, tagged, markers. rewrite in_map_iff, existsb_exists.
  split.
  - intros (dec & <- & Hin). apply filter_In in Hin. naive_solver.
  - intros (-> & dec & Hin & Htag). exists dec. split; [done|].
    apply filter_In. done.
Qed.

Lemma in_discover_file n tree :
  In n (discover_file tree) <-> In n (tagged_names (all_defs tree)).
Proof.
  rewrite discover_file_entries. unfold tagged_names.
  rewrite in_flat_map, in_map_iff. split.
  - intros (d & Hd & Hn). apply in_entries_of in Hn as [-> Ht].
    exists d. split; [done|]. by apply filter_In.
  - intros (d & <- & Hd). apply filter_In in Hd as [Hd Ht].
    exists d. split; [done|]. by apply in_entries_of.
Qed.

Lemma entries_single d :
  (List.length (markers d) <= 1)%nat ->
  entries_of d = if tagged d then [def_name d] else [].
Proof.
  unfold entries_of, tagged, markers.
  induction (def_decorators d) as [|dec decs IH]; simpl; [done|].
  destruct (is_tag_call dec) eqn:Hdec; simpl.
  - intros Hlen. destruct (List.filter is_tag_call decs); [done|simpl in Hlen; lia].
  - done.
Qed.

Lemma entries_single_markers defs :
  (forall d, In d defs -> (List.length (markers d) <= 1)%nat) ->
  flat_map entries_of defs = tagged_names defs.
Proof.
  unfold tagged_names.
  induction defs as [|d defs IH]; simpl; intros Hone; [done|].
  rewrite entries_single by (apply Hone; by left).
  rewrite IH by (intros; apply Hone; by right).
  by destruct (tagged d).
Qed.

Lemma top_level_defs_incl tree d :
  In d (top_level_defs tree) -> In d (all_defs tree).
Proof.
  unfold top_level_defs, all_defs. rewrite !in_flat_map.
  intros (node & Hnode & Hd). exists node. split; [done|].
  destruct node; simpl in *; naive_solver.
Qed.





(** C10: a routine none of whose decorators is a call of the bare name
    [figarotag] adds nothing to the result, so its name is absent unless
    another definition of that name is tagged; the bare decorator
    [@figarotag] and a qualified call [@mod.figarotag(...)] are not such
    calls. *)
Theorem unmarked_never_discovered (tree : module_ast) (name : string) :
  (forall d, In d (all_defs tree) -> def_name d = name ->
             forall dec, In dec (def_decorators d) -> ~ tag_marker dec) ->
  ~ In name (discover_file tree) /\
  ~ tag_marker (Name "figarotag") /\
  (forall value args, ~ tag_marker (Call (Attribute value "figarotag") args)).
Proof.
  intros Hunmarked. split; [|split].
  - rewrite in_discover_file. unfold tagged_names. rewrite in_map_iff.
    intros (d & Hname & Hd). apply filter_In in Hd as [Hd Ht].
    unfold tagged in Ht. apply existsb_exists in Ht as (dec & Hdec & Hcall).
    apply (Hunmarked d Hd Hname dec Hdec). by apply is_tag_call_marker.
  - intros [args Heq]. discriminate Heq.
  - intros value args [args' Heq]. discriminate Heq.
Qed.


Lemma unmarked_never_discovered_witness :
  ~ In "qualified" (discover_file decorator_forms).
Proof.
  apply (unmarked_never_discovered decorator_forms "qualified").
  intros d Hd Hname dec Hdec. simpl in Hd.
  destruct Hd as [<-|[<-|[<-|[]]]]; simpl in Hname; try discriminate Hname.
  simpl in Hdec. destruct Hdec as [<-|[]].
  intros [args Heq]. discriminate Heq.
Defined.

Example decorator_forms_result : discover_file decorator_forms = ["proper"].
Proof. reflexivity. Qed.

(** * The checksum *)

Section Checksum.
Context (H : hashlib) (Hlaws : hashlib_streaming H).

(** With a unit of fuel more than there are bytes, the loop reaches the
    empty chunk, having fed every byte once and in order. *)
Lemma read_chunks_all (n fuel : nat) (f : list byte) (h : hstate H) :
  (0 < n)%nat -> (List.length f < fuel)%nat ->
  read_chunks H n fuel f h = Some (hupdate H h f).
Proof.
  intros Hn. revert f h.
  induction fuel as [|fuel IH]; intros f h Hfuel; [lia|].
  simpl. destruct (firstn n f) as [|b chunk] eqn:Hchunk.
  - destruct f as [|b f]; [|destruct n; [lia|discriminate Hchunk]].
    by rewrite (hupdate_nil H Hlaws).
  - rewrite IH.
    + rewrite (hupdate_app H Hlaws), <- Hchunk. by rewrite firstn_skipn.
    + assert (f <> []) by (intros ->; by rewrite firstn_nil in Hchunk).
      rewrite length_skipn. destruct f; [done|]. simpl in *. lia.
Qed.

Lemma chunk_size_pos : (0 < chunk_size)%nat.
Proof. unfold chunk_size. lia. Qed.

Lemma checksum_bytes_at_once (data : list byte) :
  checksum_bytes H data = Some (hash_at_once H data).
Proof.
  unfold checksum_bytes, hash_at_once.
  rewrite read_chunks_all; [done | apply chunk_size_pos | lia].
Qed.
End Checksum.

(** Five bytes read two at a time: three chunks, then the empty one. *)
Example read_chunks_by_two :
  read_chunks Toy.plain_hash 2 6 (list_byte_of_string "abcde") [] =
  Some (list_byte_of_string "abcde").
Proof. reflexivity. Qed.

(** C9: the checksum computed by reading chunks of 8192 bytes is the hash of
    the file's whole content taken at once, and two files with the same bytes
    get the same digest. *)
Theorem checksum_is_whole_file_hash (P : platform) (fs fs' : filesystem)
    (p p' : string) (data : list byte) :
  hashlib_streaming (sha256 P) ->
  read_file P fs p = Some data ->
  checksum P fs p = Some (hash_at_once (sha256 P) data) /\
  (read_file P fs' p' = Some data -> checksum P fs' p' = checksum P fs p).
Proof.
  intros Hlaws Hread. unfold checksum. rewrite Hread. split.
  - by apply checksum_bytes_at_once.
  - by intros ->.
Qed.

Lemma plain_hash_streaming : hashlib_streaming Toy.plain_hash.
Proof.
  split; simpl.
  - intros s. apply app_nil_r.
  - intros s a b. symmetry. apply app_assoc.
Qed.

Lemma checksum_is_whole_file_hash_witness :
  checksum Toy.example_platform Toy.example_fs "/w/example/figscripts/line.py"
  = Some "line.py text".
Proof.
  refine (proj1 (checksum_is_whole_file_hash Toy.example_platform
                   Toy.example_fs Toy.example_fs
                   "/w/example/figscripts/line.py"
                   "/w/example/figscripts/line.py"
                   (list_byte_of_string "line.py text")
                   plain_hash_streaming _)).
  reflexivity.
Defined.

(** * The staleness decision *)

Lemma add_dependent_present (p : string) (d : list string) :
  p ∈ d -> add_dependent p d = d.
Proof. intros Hin. unfold add_dependent. by rewrite bool_decide_eq_true_2. Qed.

Lemma add_dependent_keeps (p x : string) (d : list string) :
  x ∈ d -> x ∈ add_dependent p d.
Proof.
  intros Hin. unfold add_dependent. case_bool_decide; [done|].
  apply elem_of_app. by left.
Qed.

Lemma add_dependent_adds (p : string) (d : list string) :
  p ∈ add_dependent p d.
Proof.
  unfold add_dependent. case_bool_decide; [done|].
  apply elem_of_app. right. by apply list_elem_of_singleton.
Qed.

(** What [check_dependents] does, by the shape of the record. *)
Lemma check_dependents_run metafile full_fp dependent (m m' : store) said said' :
  check_dependents metafile full_fp dependent m said = (Run, m', said') ->
  exists r deps,
    m !! full_fp = Some r /\ rec_dependents r = Some deps /\
    said' = said /\
    m' = <[full_fp := mkRecord (rec_checksum r)
                               (Some (add_dependent dependent deps))]> m.
Proof.
  unfold check_dependents. intros Heq.
  destruct (m !! full_fp) as [r|]; [|discriminate Heq].
  destruct (rec_dependents r) as [deps|] eqn:Hdeps; [|discriminate Heq].
  injection Heq as <- <-. by exists r, deps.
Qed.

Lemma check_dependents_not_skip metafile full_fp dependent (m m' : store)
    said said' d :
  check_dependents metafile full_fp dependent m said = (d, m', said') ->
  d <> Skip.
Proof.
  unfold check_dependents. intros Heq ->.
  repeat case_match; discriminate Heq.
Qed.

Lemma check_dependents_corrupt metafile full_fp dependent (m m' : store)
    said said' :
  check_dependents metafile full_fp dependent m said = (Corrupt, m', said') ->
  m' = m /\ said' = (said ++ [MsgCorrupt metafile])%list /\
  (m !! full_fp = None \/
   exists r, m !! full_fp = Some r /\ rec_dependents r = None).
Proof.
  unfold check_dependents. intros Heq.
  destruct (m !! full_fp) as [r|] eqn:Hr.
  - destruct (rec_dependents r) eqn:Hd; [discriminate Heq|].
    injection Heq as <- <-. split; [done|]. split; [done|]. right. by exists r.
  - injection Heq as <- <-. by auto.
Qed.

Section Evaluate.
Context (args : Namespace) (fp fnc full_fp script_checksum : string)
        (artifact : bool) (dependent : string).

Local Abbreviation eval := (evaluate args fp fnc full_fp script_checksum artifact dependent).

(** The decision is [Skip] exactly on an equal stored checksum, without
    [--force], with the figure in place; the store is then left alone. *)
Lemma evaluate_skip_iff (m m' : store) (d : decision) said :
  eval m = (d, m', said) ->
  (d = Skip <->
   exists r, m !! full_fp = Some r /\ rec_checksum r = Some script_checksum /\
             force args = false /\ artifact = true).
Proof.
  unfold evaluate. intros Heq.
  destruct (m !! full_fp) as [r|] eqn:Hr.
  - destruct (rec_checksum r) as [stored|] eqn:Hc.
    + destruct (String.eqb stored script_checksum) eqn:Hs;
        destruct (force args) eqn:Hf; simpl in Heq;
        try (apply String.eqb_eq in Hs as ->);
        try (apply String.eqb_neq in Hs).
      * split; [|naive_solver].
        intros ->. by apply check_dependents_not_skip in Heq.
      * destruct artifact.
        -- injection Heq as <- _ _. split; [|done]. intros _. by exists r.
        -- split; [|naive_solver].
           intros ->. by apply check_dependents_not_skip in Heq.
      * split; [|naive_solver].
        intros ->. by apply check_dependents_not_skip in Heq.
      * split; [|naive_solver].
        intros ->. by apply check_dependents_not_skip in Heq.
    + injection Heq as <- _ _. split; [done|]. naive_solver.
  - injection Heq as <- _ _. split; [done|]. naive_solver.
Qed.

Lemma evaluate_skip_store (m m' : store) said :
  eval m = (Skip, m', said) -> m' = m.
Proof.
  unfold evaluate. intros Heq.
  repeat case_match; try by (apply check_dependents_not_skip in Heq).
  all: by simplify_eq.
Qed.

(** No record: a record is made and the routine runs. *)
Lemma evaluate_new_record (m : store) :
  m !! full_fp = None ->
  eval m =
  (Run, <[full_fp := mkRecord (Some script_checksum) (Some [dependent])]> m, []).
Proof. intros Hnone. unfold evaluate. by rewrite Hnone. Qed.

(** A record with both fields: [Skip] or [Run], and the checksum is the
    fresh one after a [Run]. *)
Lemma evaluate_well_formed (m : store) (r : fprecord) stored deps :
  m !! full_fp = Some r ->
  rec_checksum r = Some stored -> rec_dependents r = Some deps ->
  (exists said, eval m = (Skip, m, said) /\
     stored = script_checksum /\ force args = false /\ artifact = true) \/
  (exists said,
     eval m =
     (Run,
      <[full_fp := mkRecord (Some script_checksum)
                            (Some (add_dependent dependent deps))]> m,
      said)).
Proof.
  intros Hr Hc Hd. unfold evaluate. rewrite Hr, Hc.
  destruct (String.eqb stored script_checksum) eqn:Hs;
    destruct (force args) eqn:Hf; simpl;
    try (apply String.eqb_eq in Hs as ->).
  - right. unfold check_dependents. rewrite lookup_insert_eq. simpl.
    rewrite Hd, insert_insert_eq. by eexists.
  - destruct artifact.
    + left. by eexists.
    + right. unfold check_dependents. rewrite Hr, Hd, Hc. by eexists.
  - right. unfold check_dependents. rewrite lookup_insert_eq. simpl.
    rewrite Hd, insert_insert_eq. by eexists.
  - right. unfold check_dependents. rewrite lookup_insert_eq. simpl.
    rewrite Hd, insert_insert_eq. by eexists.
Qed.

(** A record that lacks a field is never decided [Run]. *)
Lemma evaluate_corrupt_record (m m' : store) (r : fprecord) d said :
  m !! full_fp = Some r ->
  rec_checksum r = None \/ rec_dependents r = None ->
  eval m = (d, m', said) -> d <> Run.
Proof.
  intros Hr Hlack Heq ->. unfold evaluate in Heq. rewrite Hr in Heq.
  destruct (rec_checksum r) as [stored|] eqn:Hc; [|discriminate Heq].
  destruct Hlack as [Hlack|Hlack]; [discriminate Hlack|].
  destruct (String.eqb stored script_checksum && negb (force args)).
  - destruct artifact; [discriminate Heq|].
    apply check_dependents_run in Heq as (r' & deps & Hr' & Hd' & _).
    congruence.
  - apply check_dependents_run in Heq as (r' & deps & Hr' & Hd' & _).
    rewrite lookup_insert_eq in Hr'. simplify_eq. simpl in *. congruence.
Qed.

(** After a [Run] decision the output path is among the dependents and the
    checksum is the fresh one. *)
Lemma evaluate_run_record (m m' : store) said :
  eval m = (Run, m', said) ->
  exists deps,
    m' !! full_fp = Some (mkRecord (Some script_checksum) (Some deps)) /\
    dependent ∈ deps.
Proof.
  unfold evaluate. intros Heq.
  destruct (m !! full_fp) as [r|] eqn:Hr.
  - destruct (rec_checksum r) as [stored|] eqn:Hc; [|discriminate Heq].
    destruct (String.eqb stored script_checksum && negb (force args)) eqn:Hb.
    + apply andb_true_iff in Hb as [Hs _]. apply String.eqb_eq in Hs as ->.
      destruct artifact; [discriminate Heq|].
      apply check_dependents_run in Heq as (r' & deps & Hr' & Hd' & _ & ->).
      simplify_eq. rewrite lookup_insert_eq, Hc.
      eexists. split; [done|]. apply add_dependent_adds.
    + apply check_dependents_run in Heq as (r' & deps & Hr' & Hd' & _ & ->).
      rewrite lookup_insert_eq in Hr'. simplify_eq. simpl in *.
      rewrite lookup_insert_eq.
      eexists. split; [done|]. apply add_dependent_adds.
  - injection Heq as <- _. rewrite lookup_insert_eq.
    eexists. split; [done|]. by apply list_elem_of_singleton.
Qed.

(** Only the record of [full_fp] is touched. *)
Lemma evaluate_other_keys (m m' : store) d said k :
  eval m = (d, m', said) -> k <> full_fp -> m' !! k = m !! k.
Proof.
  unfold evaluate, check_dependents. intros Heq Hk.
  repeat case_match; simplify_eq; rewrite ?lookup_insert_ne; try done.
  all: by rewrite lookup_insert_ne.
Qed.

(** What becomes of an existing record: the checksum field stays absent or
    becomes/stays a value, the dependents only gain entries. *)
Lemma evaluate_same_key (m m' : store) d said (r : fprecord) :
  eval m = (d, m', said) -> m !! full_fp = Some r ->
  exists r',
    m' !! full_fp = Some r' /\
    match rec_checksum r with
    | None => r' = r
    | Some stored =>
        rec_checksum r' = Some stored \/ rec_checksum r' = Some script_checksum
    end /\
    match rec_dependents r with
    | None => rec_dependents r' = None
    | Some deps =>
        exists deps', rec_dependents r' = Some deps' /\
                      (forall x, x ∈ deps -> x ∈ deps')
    end.
Proof.
  unfold evaluate, check_dependents. intros Heq Hr. rewrite Hr in Heq.
  destruct (rec_checksum r) as [stored|] eqn:Hc.
  2:{ injection Heq as _ <- _. exists r. split; [done|].
      split; [done|]. destruct (rec_dependents r); naive_solver. }
  destruct (String.eqb stored script_checksum && negb (force args)).
  - destruct artifact.
    + injection Heq as _ <- _. exists r. rewrite Hc.
      destruct (rec_dependents r); naive_solver.
    + destruct (rec_dependents r) as [deps|] eqn:Hd.
      * injection Heq as _ <- _. rewrite lookup_insert_eq.
        eexists. split; [done|]. simpl. split; [by left|].
        eexists. split; [done|]. intros x. apply add_dependent_keeps.
      * injection Heq as _ <- _. exists r. rewrite Hc, Hd. naive_solver.
  - rewrite lookup_insert_eq in Heq. simpl in Heq.
    destruct (rec_dependents r) as [deps|] eqn:Hd.
    + injection Heq as _ <- _. rewrite lookup_insert_eq.
      eexists. split; [done|]. simpl. split; [by right|].
      eexists. split; [done|]. intros x. apply add_dependent_keeps.
    + injection Heq as _ <- _. rewrite lookup_insert_eq.
      eexists. split; [done|]. simpl. split; [by right|done].
Qed.
End Evaluate.

(** * Reasoning about runs *)





Ltac stop_is_raised :=
  let Heq := fresh "Heq" in
  intros Heq;
  first [discriminate Heq | injection Heq as <- _; eexists; reflexivity].

Ltac stop_cases :=
  repeat (case_match; simpl in * );
  simplify_eq; try done; stop_is_raised.

Ltac unfold_run :=
  unfold bind, ret, raise, exit, print, get_fs, put_fs, get_meta, put_meta,
         log_call, when in *.

#[local] Instance same_but_stdout_preorder : PreOrder (fun st st' => same_but_stdout st st').
Proof.
  split.
  - by intros st.
  - intros st1 st2 st3 (? & ? & ?) (? & ? & ?).
    unfold same_but_stdout. split_and!; congruence.
Qed.

Section Keeps.
Context (R : state -> state -> Prop) `{!PreOrder R}.

Lemma keeps_ret {A} (a : A) : keeps R (ret a).
Proof. intros st. simpl. reflexivity. Qed.

Lemma keeps_stop {A} (o : outcome) : keeps R (fun st => @Stop A o st).
Proof. intros st. simpl. reflexivity. Qed.

Lemma keeps_bind {A B} (m : M A) (k : A -> M B) :
  keeps R m -> (forall a, keeps R (k a)) -> keeps R (bind m k).
Proof.
  intros Hm Hk st. unfold bind. specialize (Hm st).
  destruct (m st) as [a st'|o st']; simpl in *; [|done].
  etrans; [exact Hm | apply Hk].
Qed.

Lemma keeps_for_each {A} (body : A -> M unit) (l : list A) :
  (forall x, In x l -> keeps R (body x)) -> keeps R (for_each body l).
Proof.
  induction l as [|x l IH]; intros Hbody; simpl.
  - apply keeps_ret.
  - apply keeps_bind; [apply Hbody; by left|].
    intros _. apply IH. intros y Hy. apply Hbody. by right.
Qed.

Lemma keeps_for_fold {A B} (body : A -> B -> M B) (l : list A) (acc : B) :
  (forall x b, In x l -> keeps R (body x b)) -> keeps R (for_fold body l acc).
Proof.
  revert acc. induction l as [|x l IH]; intros acc Hbody; simpl.
  - apply keeps_ret.
  - apply keeps_bind; [apply Hbody; by left|].
    intros acc'. apply IH. intros y b Hy. apply Hbody. by right.
Qed.

Lemma keeps_when (b : bool) (m : M unit) : keeps R m -> keeps R (when b m).
Proof. intros Hm. destruct b; [done | apply keeps_ret]. Qed.
End Keeps.

Lemma same_but_stdout_keeps (R : state -> state -> Prop) `{!PreOrder R} {A}
    (m : M A) :
  (forall st st', same_but_stdout st st' -> R st st') ->
  keeps (fun st st' => same_but_stdout st st') m -> keeps R m.
Proof. intros Hsub Hm st. apply Hsub, Hm. Qed.

Lemma print_same msg : keeps (fun st st' => same_but_stdout st st') (print msg).
Proof. by intros st. Qed.

Lemma for_each_print (said : list message) (st : state) :
  for_each print said st =
  Cont tt (mkState (meta_content st) (fs st) (stdout st ++ said) (executed st)).
Proof.
  revert st. induction said as [|msg said IH]; intros [m f o e]; simpl.
  - unfold ret. by rewrite app_nil_r.
  - unfold bind, print. simpl. rewrite IH. simpl. by rewrite <- app_assoc.
Qed.

Section NeverExits.
Lemma never_exits_ret {A} (a : A) : never_exits (ret a).
Proof. intros st o st' Heq. discriminate Heq. Qed.

Lemma never_exits_raise {A} (e : exception) : never_exits (@raise A e).
Proof. intros st o st' Heq. injection Heq as <- _. by exists e. Qed.

Lemma never_exits_bind {A B} (m : M A) (k : A -> M B) :
  never_exits m -> (forall a, never_exits (k a)) -> never_exits (bind m k).
Proof.
  intros Hm Hk st o st'. unfold bind.
  destruct (m st) as [a st1|o1 st1] eqn:Hst.
  - apply Hk.
  - intros Heq. injection Heq as <- <-. by apply (Hm _ _ _ Hst).
Qed.

Lemma never_exits_for_each {A} (body : A -> M unit) (l : list A) :
  (forall x, never_exits (body x)) -> never_exits (for_each body l).
Proof.
  intros Hbody. induction l as [|x l IH]; simpl.
  - apply never_exits_ret.
  - apply never_exits_bind; [apply Hbody | intros _; apply IH].
Qed.

Lemma never_exits_for_fold {A B} (body : A -> B -> M B) (l : list A) (acc : B) :
  (forall x b, never_exits (body x b)) -> never_exits (for_fold body l acc).
Proof.
  intros Hbody. revert acc. induction l as [|x l IH]; intros acc; simpl.
  - apply never_exits_ret.
  - apply never_exits_bind; [apply Hbody | intros acc'; apply IH].
Qed.

Lemma never_exits_print msg : never_exits (print msg).
Proof. intros st o st' Heq. discriminate Heq. Qed.

Lemma never_exits_when (b : bool) (m : M unit) :
  never_exits m -> never_exits (when b m).
Proof. intros Hm. destruct b; [done | apply never_exits_ret]. Qed.
End NeverExits.

(** * One routine *)

Section Routine.
Context (P : platform) (args : Namespace).


Lemma run_routine_no_target fp module fnc st :
  target P args module fnc = None ->
  same_but_stdout st (final (run_routine P args fp module fnc st)).
Proof.
  unfold target, run_routine. intros Hnone.
  destruct (module !! fnc) as [[fig_gen|]|]; [|done..].
  destruct (params fig_gen) as [|[|] [|]]; try done.
  destruct (figaroname fig_gen); [|done].
  destruct (figaroext fig_gen); [|done].
  discriminate Hnone.
Qed.

Lemma run_routine_unreadable fp module fnc st fig_gen save_path :
  target P args module fnc = Some (fig_gen, save_path) ->
  checksum P (fs st) fp = None ->
  run_routine P args fp module fnc st = Stop (Raised OSError) st.
Proof.
  unfold target, run_routine. intros Ht Hc.
  destruct (module !! fnc) as [[g|]|]; [|done..].
  destruct (params g) as [|[|] [|]]; try done.
  destruct (figaroname g); [|done].
  destruct (figaroext g); [|done].
  unfold_run. simpl. by rewrite Hc.
Qed.

(** The turn of a routine that gets evaluated. *)
Lemma run_routine_target fp module fnc st fig_gen save_path c d m' said :
  target P args module fnc = Some (fig_gen, save_path) ->
  checksum P (fs st) fp = Some c ->
  evaluate args fp fnc (resolve P fp) c (is_file P (fs st) save_path)
           (resolve P save_path) (meta_content st) = (d, m', said) ->
  let r := run_routine P args fp module fnc st in
  meta_content (final r) = m' /\
  match d with
  | Run =>
      executed (final r) = (executed st ++ [(fp, fnc)])%list /\
      match call fig_gen save_path (fs st) with
      | Some fs' => fs (final r) = fs' /\ r = Cont tt (final r)
      | None => fs (final r) = fs st /\ r = Stop (Raised RoutineError) (final r)
      end
  | _ =>
      executed (final r) = executed st /\ fs (final r) = fs st /\
      r = Cont tt (final r)
  end.
Proof.
  unfold target, run_routine. intros Ht Hc He.
  destruct (module !! fnc) as [[g|]|]; [|done..].
  destruct (params g) as [|[|] [|]]; try done.
  destruct (figaroname g) as [file_name|]; [|done].
  destruct (figaroext g) as [file_ext|]; [|done].
  injection Ht as -> <-.
  unfold_run. simpl. rewrite Hc. simpl. rewrite He.
  rewrite for_each_print. simpl.
  destruct d; try done.
  unfold vprint, when. unfold_run.
  destruct (verbose args); simpl;
    destruct (call fig_gen _ (fs st)); simpl; done.
Qed.

(** A routine's turn never calls [exit]. *)
Lemma run_routine_never_exits fp module fnc :
  never_exits (run_routine P args fp module fnc).
Proof.
  intros st o st' Heq.
  destruct (target P args module fnc) as [[g sp]|] eqn:Ht.
  - destruct (checksum P (fs st) fp) as [c|] eqn:Hc.
    + destruct (evaluate args fp fnc (resolve P fp) c (is_file P (fs st) sp)
                         (resolve P sp) (meta_content st))
        as [[d m'] said] eqn:He.
      pose proof (run_routine_target _ _ _ _ _ _ _ _ _ _ Ht Hc He) as [_ Hd].
      simpl in Hd. rewrite Heq in Hd. destruct d.
      * by destruct Hd as (_ & _ & ?).
      * destruct Hd as [_ Hd]. destruct (call g sp (fs st)).
        -- by destruct Hd.
        -- destruct Hd as [_ Hd]. injection Hd as ->. by eexists.
      * by destruct Hd as (_ & _ & ?).
    + rewrite (run_routine_unreadable _ _ _ _ _ _ Ht Hc) in Heq.
      injection Heq as <- _. by eexists.
  - clear Ht. revert Heq. unfold run_routine.
    destruct (module !! fnc) as [[g|]|]; unfold_run; simpl;
      [| intros [= <- _]; by eexists..].
    destruct (params g) as [|[|] [|]]; try discriminate.
    destruct (figaroname g); [|intros [= <- _]; by eexists].
    destruct (figaroext g); [|intros [= <- _]; by eexists].
    destruct (checksum P (fs st) fp); [|intros [= <- _]; by eexists].
    destruct (evaluate _ _ _ _ _ _ _ _) as [[d m'] said].
    simpl. rewrite for_each_print. simpl.
    destruct d; try discriminate.
    unfold vprint, when. unfold_run.
    destruct (verbose args); simpl;
      destruct (call g _ (fs st)); simpl; try discriminate;
      intros [= <- _]; by eexists.
Qed.
End Routine.

(** * C1: the staleness decision *)


(** C1, as stated, fails: the record of [line.py] holds no checksum equal to
    the fresh hash and no figure exists, so the claim wants [fig_line] run;
    the decision is [Corrupt], and the run calls the two routines of
    [parabola.py] only. *)
Lemma corrupt_record_is_not_run :
  evaluate Toy.example_args "/w/example/figscripts/line.py" "fig_line"
           "/w/example/figscripts/line.py" "line.py text" false
           "/w/figures/line.pdf"
           {[ "/w/example/figscripts/line.py" := mkRecord None (Some []) ]}
  = (Corrupt,
     {[ "/w/example/figscripts/line.py" := mkRecord None (Some []) ]},
     [MsgCorrupt "/w/.figaro.meta"]) /\
  let run := run_main Toy.example_platform Toy.example_args fs_without_checksum in
  fst run = Done /\
  executed (snd run) =
    [("/w/example/figscripts/parabola.py", "fig_parabola");
     ("/w/example/figscripts/parabola.py", "fig_parabola2")] /\
  is_file Toy.example_platform (fs (snd run)) "/w/figures/line.pdf" = false.
Proof. split; [reflexivity|]. vm_compute. done. Qed.

(** C1 (amended): the decision is [Skip] exactly when the store holds a
    record for the file whose checksum equals the fresh hash, [--force] is
    off and a regular file is at the output path.  When the file has no
    record, or its record has both fields, every other case is [Run], and
    when the stored hash differs or [--force] is set the record's checksum
    becomes the fresh one.  A record lacking a field is never decided
    [Run]. *)
Theorem staleness_decision (args : Namespace) (fp fnc full_fp c : string)
    (artifact : bool) (dependent : string) (m m' : store) (d : decision)
    (said : list message) :
  evaluate args fp fnc full_fp c artifact dependent m = (d, m', said) ->
  (d = Skip <->
   exists r, m !! full_fp = Some r /\ rec_checksum r = Some c /\
             force args = false /\ artifact = true) /\
  (m !! full_fp = None ->
   d = Run /\ exists r', m' !! full_fp = Some r' /\ rec_checksum r' = Some c) /\
  (forall r stored deps,
      m !! full_fp = Some r -> rec_checksum r = Some stored ->
      rec_dependents r = Some deps ->
      (d <> Skip -> d = Run) /\
      (stored <> c \/ force args = true ->
       exists r', m' !! full_fp = Some r' /\ rec_checksum r' = Some c)) /\
  (forall r,
      m !! full_fp = Some r ->
      rec_checksum r = None \/ rec_dependents r = None -> d <> Run).
Proof.
  intros Heq. split; [by eapply evaluate_skip_iff|]. split; [|split].
  - intros Hnone. rewrite evaluate_new_record in Heq by done.
    injection Heq as <- <- _. split; [done|].
    rewrite lookup_insert_eq. by eexists.
  - intros r stored deps Hr Hc Hd.
    destruct (evaluate_well_formed args fp fnc full_fp c artifact dependent
                m r stored deps Hr Hc Hd)
      as [(said' & Heq' & -> & Hf & Ha)|(said' & Heq')];
      rewrite Heq' in Heq; injection Heq as <- <- _.
    + split; [done|]. intros [Hne|Hforce]; [done|congruence].
    + split; [done|]. intros _. rewrite lookup_insert_eq. by eexists.
  - intros r Hr Hlack. by eapply evaluate_corrupt_record.
Qed.

(** The theorem at a changed script: the stored checksum is stale, so the
    decision is [Run] and the checksum is replaced. *)
Lemma staleness_decision_witness :
  exists r',
    (<["/w/a.py" := mkRecord (Some "new") (Some ["/w/figures/a.pdf"])]>
       ({[ "/w/a.py" := mkRecord (Some "old") (Some ["/w/figures/a.pdf"]) ]}
        : store)) !! "/w/a.py" = Some r' /\
    rec_checksum r' = Some "new".
Proof.
  refine (proj2 (proj1 (proj2 (proj2
    (staleness_decision Toy.example_args "/w/a.py" "fig_a" "/w/a.py" "new"
       true "/w/figures/a.pdf"
       {[ "/w/a.py" := mkRecord (Some "old") (Some ["/w/figures/a.pdf"]) ]}
       _ Run [] _)))
    _ "old" ["/w/figures/a.pdf"] _ _ _) _).
  - reflexivity.
  - reflexivity.
  - reflexivity.
  - reflexivity.
  - left. discriminate.
Defined.

(** * C4: records that lack a field *)

(** A record without [checksum]: reported, left as it is, never run. *)
Lemma evaluate_missing_checksum (args : Namespace) (fp fnc full_fp c : string)
    (artifact : bool) (dependent : string) (m : store) (r : fprecord) :
  m !! full_fp = Some r -> rec_checksum r = None ->
  evaluate args fp fnc full_fp c artifact dependent m =
  (Corrupt, m, [MsgCorrupt (metafile args)]).
Proof. intros Hr Hc. unfold evaluate. by rewrite Hr, Hc. Qed.


(** C4 at the failing input: the record lacks [dependents] and the script
    has changed.  The corruption is reported and [fig_line] is not called,
    but line 251 has already replaced the checksum: the store written back
    holds the fresh checksum in the corrupt record. *)
Theorem corrupt_record_checksum_overwritten :
  let run := run_main Toy.example_platform Toy.example_args fs_without_dependents in
  fst run = Done /\
  stdout (snd run) = [MsgCorrupt "/w/.figaro.meta"] /\
  executed (snd run) =
    [("/w/example/figscripts/parabola.py", "fig_parabola");
     ("/w/example/figscripts/parabola.py", "fig_parabola2")] /\
  (exists doc,
     json_load Toy.example_platform (fs (snd run)) "/w/.figaro.meta" = Some doc /\
     doc !! "/w/example/figscripts/line.py" =
       Some (mkRecord (Some "line.py text") None)).
Proof.
  vm_compute. split_and!; try done. eexists. split; [done|]. by vm_compute.
Qed.

(** The second run on that store finds the checksum equal; with the figure
    missing it reports the corruption again, and with a figure in place it
    would skip [fig_line] without a word although the script it was made
    from has changed. *)
Lemma corrupt_record_skipped_silently :
  evaluate Toy.example_args "/w/example/figscripts/line.py" "fig_line"
           "/w/example/figscripts/line.py" "line.py text" true
           "/w/figures/line.pdf"
           {[ "/w/example/figscripts/line.py" :=
                mkRecord (Some "line.py text") None ]}
  = (Skip,
     {[ "/w/example/figscripts/line.py" := mkRecord (Some "line.py text") None ]},
     []).
Proof. reflexivity. Qed.

(** * C3: names that do not resolve, functions without the attributes *)





(** C3 at the failing inputs: the violation is printed, then [getattr]
    raises.  The run stops there: [fig_line], next in line, is not called,
    no figure directory content exists and no store is written. *)
Theorem missing_attribute_aborts_run :
  (let run :=
     run_main (Toy.make (first_then_line "/w/example/figscripts/figures.py")
                        [figures_py; Toy.line_py])
              Toy.example_args
              (fs_with "/w/example/figscripts/figures.py" "figures.py text") in
   fst run = Raised AttributeError /\
   stdout (snd run) = [MsgNotInModule] /\
   executed (snd run) = [] /\
   path_exists Toy.example_platform (fs (snd run)) "/w/.figaro.meta" = false) /\
  (let run :=
     run_main (Toy.make (first_then_line "/w/example/figscripts/wrapped.py")
                        [wrapped_py; Toy.line_py])
              Toy.example_args
              (fs_with "/w/example/figscripts/wrapped.py" "wrapped.py text") in
   fst run = Raised AttributeError /\
   stdout (snd run) = [MsgNoFigaroname] /\
   executed (snd run) = [] /\
   path_exists Toy.example_platform (fs (snd run)) "/w/.figaro.meta" = false).
Proof. vm_compute. done. Qed.

(** The sibling check does what the claim says: a wrong signature is
    printed and the loop goes on. *)
Lemma bad_signature_continues (P : platform) (args : Namespace)
    (fp fnc : string) (module : pymodule) (g : callable) (st : state) :
  module !! fnc = Some (Function g) -> params g <> [AnnPath] ->
  run_routine P args fp module fnc st =
  Cont tt (mkState (meta_content st) (fs st)
                   (stdout st ++ [MsgBadSignature]) (executed st)).
Proof.
  intros Hm Hp. unfold run_routine. rewrite Hm.
  destruct (params g) as [|[|] [|]]; done.
Qed.

(** * The phases of main *)

Section Phases.
Context (P : platform) (args : Namespace).


Lemma validate_dir_ok (d : string) (st : state) :
  path_exists P (fs st) d = true -> is_dir P (fs st) d = true ->
  validate_dir P d st = Cont tt st.
Proof. intros He Hd. unfold validate_dir. unfold_run. by rewrite He, Hd. Qed.

Lemma validate_dir_bad (d : string) (st : state) :
  path_exists P (fs st) d = false \/ is_dir P (fs st) d = false ->
  exists st', validate_dir P d st = Stop (Exit 1) st' /\ same_but_stdout st st'.
Proof.
  intros Hbad. unfold validate_dir. unfold_run.
  destruct (path_exists P (fs st) d) eqn:He; simpl.
  - destruct Hbad as [? | ->]; [done|]. simpl. by eexists.
  - by eexists.
Qed.

Lemma validate_dirs_spec (dirs : list string) (st : state) :
  (for_each (validate_dir P) dirs st = Cont tt st /\
   forall d, In d dirs ->
             path_exists P (fs st) d = true /\ is_dir P (fs st) d = true) \/
  (exists st', for_each (validate_dir P) dirs st = Stop (Exit 1) st' /\
               same_but_stdout st st' /\
               exists d, In d dirs /\
                 (path_exists P (fs st) d = false \/ is_dir P (fs st) d = false)).
Proof.
  induction dirs as [|d dirs IH]; simpl.
  - left. split; [done|]. intros d [].
  - unfold bind.
    destruct (path_exists P (fs st) d) eqn:He;
      [destruct (is_dir P (fs st) d) eqn:Hd|].
    + rewrite validate_dir_ok by done.
      destruct IH as [[-> Hall]|(st' & -> & Hsame & d' & Hin & Hbad)].
      * left. split; [done|]. intros d' [<-|Hin]; auto.
      * right. exists st'. split; [done|]. split; [done|].
        exists d'. auto.
    + destruct (validate_dir_bad d st) as (st' & -> & Hsame); [by right|].
      right. exists st'. split; [done|]. split; [done|]. exists d. auto.
    + destruct (validate_dir_bad d st) as (st' & -> & Hsame); [by left|].
      right. exists st'. split; [done|]. split; [done|]. exists d. auto.
Qed.

Lemma mkdir_fresh (fs0 fs' : filesystem) (p : string) :
  path_exists P fs0 p = false -> mkdir P fs0 p = Some fs' ->
  fs0 !! resolve P p = None /\ fs' = <[resolve P p := Dir]> fs0.
Proof.
  unfold path_exists, mkdir.
  destruct (fs0 !! resolve P p); [discriminate|]. intros _.
  destruct (fs0 !! parent P (resolve P p)) as [[| |]|]; try discriminate.
  by intros [= <-].
Qed.

(** [validate] either exits with 1 having touched nothing, or goes on (or
    raises in [mkdir]) on valid input. *)
Lemma validate_spec (st : state) :
  (validation_failure P args (fs st) /\
   exists st', validate P args st = Stop (Exit 1) st' /\ same_but_stdout st st') \/
  (~ validation_failure P args (fs st) /\
   ((exists st', validate P args st = Cont tt st' /\
                 meta_content st' = meta_content st /\
                 executed st' = executed st /\
                 stdout st' = stdout st /\
                 is_dir P (fs st') (out args) = true /\
                 (fs st' = fs st \/
                  fs st !! resolve P (out args) = None /\
                  fs st' = <[resolve P (out args) := Dir]> (fs st))) \/
    validate P args st = Stop (Raised OSError) st)).
Proof.
  unfold validation_failure.
  remember (validate P args st) as res eqn:Hval.
  unfold validate in Hval.
  destruct (dir args) as [[|d0 dirs0]|] eqn:Hdir.
  1,3: subst res; left; split; [by auto|]; eexists; split; done.
  unfold bind at 1 in Hval.
  destruct (validate_dirs_spec (d0 :: dirs0) st)
    as [[Heq Hall]|(st' & Heq & Hsame & d & Hin & Hbad)]; rewrite Heq in Hval.
  2:{ subst res. left. split; [|by exists st'].
      right. left. by exists (d0 :: dirs0), d. }
  assert (Hgood : forall X : Prop, ~ X ->
    ~ ((Some (d0 :: dirs0) = None \/ Some (d0 :: dirs0) = Some []) \/
       (exists dirs1 d, Some (d0 :: dirs0) = Some dirs1 /\ In d dirs1 /\
          (path_exists P (fs st) d = false \/ is_dir P (fs st) d = false)) \/
       X)).
  { intros X HX [[?|?]|[(dirs1 & d & [= <-] & Hin & Hbad)|?]]; try done.
    destruct (Hall d Hin) as [? ?]. destruct Hbad; congruence. }
  clear Heq.
  unfold_run. simpl in Hval.
  destruct (path_exists P (fs st) (out args)) eqn:Hex; simpl in Hval.
  - destruct (is_dir P (fs st) (out args)) eqn:Hd; simpl in Hval; subst res.
    + right. split; [apply Hgood; by intros [? ?]|]. left. exists st. by auto 10.
    + left. split; [by auto|]. eexists. by split.
  - right. split; [apply Hgood; by intros [? ?]|].
    destruct (mkdir P (fs st) (out args)) as [fs'|] eqn:Hmk; simpl in Hval;
      [|subst res; by right].
    destruct (mkdir_fresh _ _ _ Hex Hmk) as [Hnone ->].
    unfold is_dir in Hval. simpl in Hval.
    rewrite lookup_insert_eq in Hval. simpl in Hval. subst res.
    left. eexists. split; [done|]. simpl.
    unfold is_dir. rewrite lookup_insert_eq. by auto 10.
Qed.

Lemma load_metadata_never_exits : never_exits (load_metadata P args).
Proof.
  intros st o st'. unfold load_metadata, vprint, when. unfold_run.
  stop_cases.
Qed.

Lemma filter_file_never_exits file fg : never_exits (filter_file P args file fg).
Proof.
  intros st o st'. unfold filter_file, vprint, when. unfold_run.
  stop_cases.
Qed.

Lemma find_generators_never_exits : never_exits (find_generators P args).
Proof.
  unfold find_generators, vprint.
  repeat (apply never_exits_bind;
          [first [apply never_exits_when, never_exits_print
                 | intros ? ? ? [=]] | intros ?]).
  apply never_exits_for_fold. apply filter_file_never_exits.
Qed.

Lemma run_file_never_exits item : never_exits (run_file P args item).
Proof.
  destruct item as [fp fncts]. unfold run_file.
  apply never_exits_bind; [intros ? ? ? [=]|]. intros fs0.
  destruct (read_file P fs0 fp); [|apply never_exits_raise].
  destruct (exec_module P l); [|apply never_exits_raise].
  apply never_exits_for_each. intros fnc. apply run_routine_never_exits.
Qed.

Lemma run_generators_never_exits fg : never_exits (run_generators P args fg).
Proof.
  unfold run_generators.
  apply never_exits_bind; [apply never_exits_when, never_exits_print|].
  intros _. apply never_exits_for_each, run_file_never_exits.
Qed.

Lemma cleanup_never_exits : never_exits (cleanup P args).
Proof.
  intros st o st'. unfold cleanup. unfold_run.
  stop_cases.
Qed.

Lemma save_metadata_never_exits : never_exits (save_metadata P args).
Proof.
  intros st o st'. unfold save_metadata. unfold_run.
  stop_cases.
Qed.


Lemma main_unfold st :
  main P args st = bind (validate P args) (fun _ => after_validation P args) st.
Proof. reflexivity. Qed.

Lemma after_validation_never_exits : never_exits (after_validation P args).
Proof.
  unfold after_validation.
  apply never_exits_bind; [apply load_metadata_never_exits|]. intros _.
  apply never_exits_bind; [apply find_generators_never_exits|]. intros fg.
  apply never_exits_bind; [apply run_generators_never_exits|]. intros _.
  apply never_exits_bind; [apply cleanup_never_exits|]. intros _.
  apply save_metadata_never_exits.
Qed.
End Phases.

(** * C8: exit codes *)







(** A search root that is a file: exit code 1, nothing touched. *)
Example search_root_is_a_file :
  let args := mkArgs (Some ["/w/example/figscripts/line.py"]) "/w/figures"
                     false false "/w/.figaro.meta" false in
  fst (run_main Toy.example_platform args Toy.example_fs) = Exit 1 /\
  fs (snd (run_main Toy.example_platform args Toy.example_fs)) = Toy.example_fs.
Proof. by vm_compute. Qed.


Example bad_signature_exits_zero :
  let run :=
    run_main (Toy.make (first_then_line "/w/example/figscripts/two.py")
                       [two_params_py; Toy.line_py])
             Toy.example_args
             (fs_with "/w/example/figscripts/two.py" "two.py text") in
  fst run = Done /\
  stdout (snd run) = [MsgBadSignature] /\
  executed (snd run) = [("/w/example/figscripts/line.py", "fig_line")].
Proof. by vm_compute. Qed.

(** * C7: dependents only grow *)


#[local] Instance dependents_grow_preorder : PreOrder dependents_grow.
Proof.
  split.
  - intros m k r Hr. exists r. split; [done|]. intros deps Hd. by exists deps.
  - intros m1 m2 m3 H12 H23 k r Hr.
    destruct (H12 k r Hr) as (r2 & Hr2 & Hd2).
    destruct (H23 k r2 Hr2) as (r3 & Hr3 & Hd3).
    exists r3. split; [done|]. intros deps Hd.
    destruct (Hd2 deps Hd) as (deps2 & Hdeps2 & Hsub2).
    destruct (Hd3 deps2 Hdeps2) as (deps3 & Hdeps3 & Hsub3).
    exists deps3. split; [done|]. auto.
Qed.


#[local] Instance store_grows_preorder : PreOrder store_grows.
Proof.
  split.
  - intros st. unfold store_grows. reflexivity.
  - intros st1 st2 st3. unfold store_grows. apply transitivity.
Qed.

Lemma same_but_stdout_grows st st' : same_but_stdout st st' -> store_grows st st'.
Proof. intros (_ & Hm & _). unfold store_grows. rewrite Hm. reflexivity. Qed.

Lemma evaluate_grows args fp fnc full_fp c artifact dependent
    (m m' : store) d said :
  evaluate args fp fnc full_fp c artifact dependent m = (d, m', said) ->
  dependents_grow m m'.
Proof.
  intros Heq k r Hr. destruct (decide (k = full_fp)) as [->|Hne].
  - destruct (evaluate_same_key _ _ _ _ _ _ _ _ _ _ _ _ Heq Hr)
      as (r' & Hr' & _ & Hd).
    exists r'. split; [done|]. intros deps Hdeps. by rewrite Hdeps in Hd.
  - exists r. split.
    + by rewrite (evaluate_other_keys _ _ _ _ _ _ _ _ _ _ _ _ Heq Hne).
    + intros deps Hdeps. by exists deps.
Qed.

Section Grows.
Context (P : platform) (args : Namespace).

Lemma run_routine_grows fp module fnc :
  keeps store_grows (run_routine P args fp module fnc).
Proof.
  intros st.
  destruct (target P args module fnc) as [[g sp]|] eqn:Ht.
  - destruct (checksum P (fs st) fp) as [c|] eqn:Hc.
    + destruct (evaluate args fp fnc (resolve P fp) c (is_file P (fs st) sp)
                         (resolve P sp) (meta_content st))
        as [[d m'] said] eqn:He.
      destruct (run_routine_target P args _ _ _ _ _ _ _ _ _ _ Ht Hc He)
        as [Hm _].
      unfold store_grows. rewrite Hm. by eapply evaluate_grows.
    + rewrite (run_routine_unreadable P args _ _ _ _ _ _ Ht Hc). simpl.
      reflexivity.
  - by apply same_but_stdout_grows, run_routine_no_target.
Qed.

Lemma run_file_grows item : keeps store_grows (run_file P args item).
Proof.
  destruct item as [fp fncts]. unfold run_file.
  apply keeps_bind; [apply _ | intros st; unfold get_fs; simpl; reflexivity |].
  intros fs0.
  destruct (read_file P fs0 fp) as [source|];
    [|unfold raise; apply keeps_stop; apply _].
  destruct (exec_module P source) as [module|];
    [|unfold raise; apply keeps_stop; apply _].
  apply keeps_for_each; [apply _|]. intros fnc _. apply run_routine_grows.
Qed.

Lemma run_generators_grows fg : keeps store_grows (run_generators P args fg).
Proof.
  unfold run_generators.
  apply keeps_bind; [apply _ | |].
  - apply keeps_when; [apply _|].
    intros st. by apply same_but_stdout_grows, print_same.
  - intros _. apply keeps_for_each; [apply _|].
    intros item _. apply run_file_grows.
Qed.
End Grows.


(** * C6: the discovery result *)

Lemma dict_get_set_eq {V} (k : string) (v : V) (d : pydict V) :
  dict_get k (dict_set k v d) = Some v.
Proof.
  induction d as [|[k' v'] d IH]; simpl.
  - by rewrite String.eqb_refl.
  - destruct (String.eqb k' k) eqn:Hk; simpl; by rewrite Hk.
Qed.

Lemma dict_get_set_ne {V} (k k0 : string) (v : V) (d : pydict V) :
  k <> k0 -> dict_get k0 (dict_set k v d) = dict_get k0 d.
Proof.
  intros Hne. induction d as [|[k' v'] d IH]; simpl.
  - by apply String.eqb_neq in Hne as ->.
  - destruct (String.eqb k' k) eqn:Hk; simpl.
    + apply String.eqb_eq in Hk as ->. by apply String.eqb_neq in Hne as ->.
    + by rewrite IH.
Qed.

Lemma discover_file_nil tree :
  discover_file tree = [] <-> List.filter tagged (all_defs tree) = [].
Proof.
  split; intros Hnil.
  - destruct (List.filter tagged (all_defs tree)) as [|d l] eqn:Hf; [done|].
    assert (In (def_name d) (discover_file tree)) as Hin.
    { apply in_discover_file. unfold tagged_names. rewrite Hf. by left. }
    rewrite Hnil in Hin. destruct Hin.
  - destruct (discover_file tree) as [|n l] eqn:Hd; [done|].
    assert (In n (tagged_names (all_defs tree))) as Hin.
    { apply in_discover_file. rewrite Hd. by left. }
    unfold tagged_names in Hin. rewrite Hnil in Hin. destruct Hin.
Qed.

Section DiscoveryLoop.
Context (P : platform) (args : Namespace).



Lemma filter_file_same file fg :
  keeps (fun st st' => same_but_stdout st st') (filter_file P args file fg).
Proof.
  intros st. unfold filter_file, vprint, when. unfold_run.
  repeat (case_match; simpl in * ); simplify_eq; done.
Qed.

Lemma filter_file_cont file fg fg' st st' :
  filter_file P args file fg st = Cont fg' st' ->
  exists tree,
    parsed P (fs st) file = Some tree /\
    fg' = if (0 <? List.length (discover_file tree))%nat
          then dict_set file (discover_file tree) fg else fg.
Proof.
  unfold parsed, filter_file, discover_file, vprint, when. unfold_run.
  intros Heq.
  destruct (verbose args);
    [destruct (relative_to_cwd P (resolve P file)); [|discriminate Heq]|];
    simpl in Heq;
    (destruct (read_file P (fs st) file) as [content|]; [|discriminate Heq]);
    (destruct (ast_parse P content) as [tree|]; [|discriminate Heq]);
    exists tree; (split; [done|]);
    destruct (0 <? List.length _)%nat; simpl in Heq;
    by injection Heq as <- _.
Qed.

Lemma filter_loop files : forall fg fg' st st',
  for_fold (filter_file P args) files fg st = Cont fg' st' ->
  same_but_stdout st st' /\
  (forall file, ~ In file files -> dict_get file fg' = dict_get file fg) /\
  (forall file, In file files ->
     exists tree, parsed P (fs st) file = Some tree /\
                  dict_get file fg' = entry_after tree (dict_get file fg)).
Proof.
  induction files as [|x files IH]; intros fg fg' st st'; simpl.
  - intros [= <- <-]. split; [done|]. split; [done|]. intros file [].
  - unfold bind. destruct (filter_file P args x fg st) as [fg1 st1|] eqn:Hx;
      [|discriminate].
    intros Hrest.
    pose proof (filter_file_same x fg st) as Hsame. rewrite Hx in Hsame.
    simpl in Hsame.
    destruct (filter_file_cont _ _ _ _ _ Hx) as (tree & Htree & Hfg1).
    destruct (IH _ _ _ _ Hrest) as (Hsame' & Hout & Hin).
    assert (Hfs : fs st1 = fs st) by apply Hsame.
    split; [by etrans|].
    assert (Hx_entry : dict_get x fg1 = entry_after tree (dict_get x fg)).
    { unfold entry_after. rewrite Hfg1.
      destruct (0 <? List.length (discover_file tree))%nat; [|done].
      apply dict_get_set_eq. }
    assert (Hother : forall file, file <> x -> dict_get file fg1 = dict_get file fg).
    { intros file Hne. rewrite Hfg1.
      destruct (0 <? List.length (discover_file tree))%nat; [|done].
      by apply dict_get_set_ne. }
    split.
    + intros file Hnot. rewrite Hout by tauto. apply Hother.
      intros ->. apply Hnot. by left.
    + intros file Hfile.
      destruct (in_dec string_dec file files) as [Htail|Htail].
      * destruct (Hin file Htail) as (tree' & Htree' & Hget).
        rewrite Hfs in Htree'. exists tree'. split; [done|].
        rewrite Hget. destruct (decide (file = x)) as [->|Hne].
        -- rewrite Hx_entry. assert (tree' = tree) as -> by congruence.
           unfold entry_after.
           by destruct (0 <? List.length (discover_file tree))%nat.
        -- by rewrite Hother.
      * destruct Hfile as [<-|Hfile]; [|done].
        exists tree. split; [done|]. by rewrite Hout.
Qed.

Lemma find_generators_cont fg st st' :
  find_generators P args st = Cont fg st' ->
  same_but_stdout st st' /\
  (forall file, ~ In file (src_files P args (fs st)) -> dict_get file fg = None) /\
  (forall file, In file (src_files P args (fs st)) ->
     exists tree, parsed P (fs st) file = Some tree /\
                  dict_get file fg = entry_after tree None).
Proof.
  unfold find_generators, vprint, when. unfold_run.
  destruct (verbose args); simpl; intros Heq;
    apply filter_loop in Heq as (Hsame & Hout & Hin); simpl in *;
    (split; [by destruct Hsame as (? & ? & ?)|]); split; auto.
Qed.
End DiscoveryLoop.



(** * C2: a second run does nothing *)

(** ** What the phases do to the file system *)



#[local] Instance quiet_preorder W : PreOrder (quiet W).
Proof.
  split.
  - intros fs1 q _. by left.
  - intros fs1 fs2 fs3 H12 H23 q Hq.
    destruct (H12 q Hq) as [Heq|[HW Hreg]].
    + rewrite <- Heq in Hq. destruct (H23 q Hq) as [Heq'|[HW' Hreg']].
      * left. congruence.
      * right. done.
    + destruct (H23 q Hreg) as [Heq'|[HW' Hreg']].
      * right. split; [done|]. by rewrite Heq'.
      * right. done.
Qed.

Lemma quiet_insert_fresh W (fs1 : filesystem) k n :
  fs1 !! k = None -> quiet W fs1 (<[k := n]> fs1).
Proof.
  intros Hnone q Hq. left. rewrite lookup_insert_ne; [done|].
  intros ->. by rewrite Hnone in Hq.
Qed.

Lemma quiet_delete_dir W (fs1 : filesystem) k :
  fs1 !! k = Some Dir -> quiet W fs1 (delete k fs1).
Proof.
  intros Hdir q Hq. left. rewrite lookup_delete_ne; [done|].
  intros ->. by rewrite Hdir in Hq.
Qed.

Lemma quiet_insert_file (W : string -> Prop) (fs1 : filesystem) k n :
  W k -> is_reg (Some n) = true -> quiet W fs1 (<[k := n]> fs1).
Proof.
  intros HW Hn q Hq. destruct (decide (q = k)) as [->|Hne].
  - right. by rewrite lookup_insert_eq.
  - left. by rewrite lookup_insert_ne.
Qed.

Section FsPhases.
Context (P : platform) (args : Namespace).

Lemma is_file_is_reg fs0 p : is_file P fs0 p = is_reg (fs0 !! resolve P p).
Proof. unfold is_file, is_reg. by repeat case_match. Qed.

Lemma read_file_node fs1 fs2 p :
  fs2 !! resolve P p = fs1 !! resolve P p -> read_file P fs2 p = read_file P fs1 p.
Proof. unfold read_file. by intros ->. Qed.

Lemma checksum_node fs1 fs2 p :
  fs2 !! resolve P p = fs1 !! resolve P p -> checksum P fs2 p = checksum P fs1 p.
Proof. intros Heq. unfold checksum. by rewrite (read_file_node _ _ _ Heq). Qed.

Lemma json_load_node fs1 fs2 p :
  fs2 !! resolve P p = fs1 !! resolve P p -> json_load P fs2 p = json_load P fs1 p.
Proof. unfold json_load. by intros ->. Qed.

Lemma write_file_some fs1 fs2 p n :
  write_file P fs1 p n = Some fs2 ->
  fs2 = <[resolve P p := n]> fs1 /\
  fs1 !! resolve P p <> Some Dir /\
  fs1 !! parent P (resolve P p) = Some Dir.
Proof.
  unfold write_file. intros Heq.
  destruct (fs1 !! parent P (resolve P p)) as [[| |]|] eqn:Hpar;
    destruct (fs1 !! resolve P p) as [[| |]|] eqn:Hp;
    try discriminate Heq; by injection Heq as <-.
Qed.

(** Writing again where a write has just succeeded succeeds. *)
Lemma write_file_again fs1 fs2 p n n' :
  write_file P fs1 p n = Some fs2 -> is_reg (Some n) = true ->
  write_file P fs2 p n' = Some (<[resolve P p := n']> fs1).
Proof.
  intros Hw Hn. destruct (write_file_some _ _ _ _ Hw) as (-> & Hnd & Hpar).
  unfold write_file. rewrite lookup_insert_eq.
  assert (parent P (resolve P p) <> resolve P p) as Hne by congruence.
  rewrite lookup_insert_ne by done. rewrite Hpar, insert_insert_eq.
  by destruct n.
Qed.

Lemma load_metadata_spec st :
  match load_metadata P args st with
  | Cont _ st' =>
      fs st' = fs st /\ executed st' = executed st /\
      (json_load P (fs st) (metafile args) = Some (meta_content st') \/
       path_exists P (fs st) (metafile args) = false /\ meta_content st' = ∅)
  | Stop _ st' => same_but_stdout st st'
  end.
Proof.
  unfold load_metadata, vprint, when. unfold_run.
  destruct (path_exists P (fs st) (metafile args)) eqn:Hex;
    destruct (verbose args); simpl;
    try (destruct (json_load P (fs st) (metafile args)) eqn:Hj; simpl);
    try done; auto 10.
Qed.

Lemma cleanup_spec st :
  let r := cleanup P args st in
  meta_content (final r) = meta_content st /\
  executed (final r) = executed st /\
  (fs (final r) = fs st \/
   (fs st !! resolve P (out args) = Some Dir /\
    fs (final r) = delete (resolve P (out args)) (fs st)) \/
   write_file P (fs st) (joinpath P (out args) ".gitignore") (File ["*"%byte])
   = Some (fs (final r))).
Proof.
  unfold cleanup, rmdir, is_dir. unfold_run.
  destruct (fs st !! resolve P (out args)) as [[| |]|] eqn:Hout; simpl; auto.
  destruct (iterdir P (fs st) (out args)); simpl.
  - auto 10.
  - destruct (gitignore args); simpl; auto.
    destruct (write_file P (fs st) _ _) eqn:Hw; simpl; auto.
Qed.

Lemma save_metadata_spec st :
  match save_metadata P args st with
  | Cont _ st' =>
      meta_content st' = meta_content st /\ executed st' = executed st /\
      write_file P (fs st) (metafile args) (JsonFile (meta_content st))
      = Some (fs st')
  | Stop _ st' =>
      st' = st /\
      write_file P (fs st) (metafile args) (JsonFile (meta_content st)) = None
  end.
Proof.
  unfold save_metadata. unfold_run.
  destruct (write_file P (fs st) (metafile args) _) eqn:Hw; simpl; auto.
Qed.
End FsPhases.

(** ** The state of the store after a routine's turn *)

(** The record evaluation leaves for a file. *)
Lemma evaluate_record_after args fp fnc full_fp c artifact dependent
    (m m' : store) d said :
  evaluate args fp fnc full_fp c artifact dependent m = (d, m', said) ->
  exists r',
    m' !! full_fp = Some r' /\
    match d with
    | Run => rec_checksum r' = Some c
    | Skip => rec_checksum r' = Some c /\ artifact = true
    | Corrupt =>
        rec_checksum r' = None \/
        (rec_checksum r' = Some c /\ rec_dependents r' = None)
    end.
Proof.
  intros Heq. destruct d.
  - pose proof (evaluate_skip_store _ _ _ _ _ _ _ _ _ _ Heq) as ->.
    apply evaluate_skip_iff in Heq. destruct (proj1 Heq eq_refl) as (r & ? & ? & ? & ?).
    by exists r.
  - apply evaluate_run_record in Heq as (deps & Hr & _). by eexists.
  - unfold evaluate in Heq.
    destruct (m !! full_fp) as [r|] eqn:Hr; [|discriminate Heq].
    destruct (rec_checksum r) as [stored|] eqn:Hc.
    2:{ injection Heq as <- _. exists r. auto. }
    destruct (String.eqb stored c && negb (force args)) eqn:Hb.
    + apply andb_true_iff in Hb as [Hs _]. apply String.eqb_eq in Hs as ->.
      destruct artifact; [discriminate Heq|].
      apply check_dependents_corrupt in Heq as (-> & _ & [Hn|(r0 & Hr0 & Hd)]);
        [congruence|].
      exists r. split; [done|]. right. split; [done|]. congruence.
    + apply check_dependents_corrupt in Heq as (-> & _ & [Hn|(r0 & Hr0 & Hd)]);
        rewrite lookup_insert_eq in *; [discriminate Hn|].
      eexists. split; [done|]. right. injection Hr0 as <-. by split.
Qed.

Section Settling.
Context (P : platform) (args : Namespace) (fs0 : filesystem).







#[export] Instance store_settles_preorder : PreOrder (store_settles P fs0).
Proof.
  split.
  - intros m fp r Hr. exists r. by auto.
  - intros m1 m2 m3 H12 H23 fp r Hr.
    destruct (H12 fp r Hr) as (r2 & Hr2 & Hn2 & Hc2 & Hd2).
    destruct (H23 fp r2 Hr2) as (r3 & Hr3 & Hn3 & Hc3 & Hd3).
    exists r3. split; [done|]. split_and!.
    + intros Hnone. specialize (Hn2 Hnone). subst r2. auto.
    + intros c Hc Hright. eauto.
    + auto.
Qed.

#[export] Instance settles_preorder : PreOrder (settles P args fs0).
Proof.
  split.
  - intros st. split; reflexivity.
  - intros st1 st2 st3 [Hq12 Hs12] [Hq23 Hs23].
    split; etrans; done.
Qed.

Lemma same_but_stdout_settles st st' :
  same_but_stdout st st' -> settles P args fs0 st st'.
Proof.
  intros (Hfs & Hm & _). unfold settles. rewrite Hfs, Hm.
  split; reflexivity.
Qed.


Lemma settled_stable st st' fp sp :
  settled P fs0 st fp sp -> settles P args fs0 st st' -> settled P fs0 st' fp sp.
Proof.
  intros (r & Hr & Hcase) [Hquiet Hstore].
  destruct (Hstore fp r Hr) as (r' & Hr' & Hn & Hc & Hd).
  exists r'. split; [done|].
  destruct Hcase as [Hnone|(c & Hsome & Hright & Hdeps)].
  - left. by rewrite (Hn Hnone).
  - right. exists c. split; [by apply Hc|]. split; [done|].
    destruct Hdeps as [Hnodeps|Hfile]; [left; auto|right].
    rewrite is_file_is_reg in *.
    destruct (Hquiet _ Hfile) as [->|[_ ?]]; done.
Qed.

Lemma evaluate_settles fp fnc c artifact dependent (m m' : store) d said :
  evaluate args fp fnc (resolve P fp) c artifact dependent m = (d, m', said) ->
  checksum P fs0 fp = Some c ->
  store_settles P fs0 m m'.
Proof.
  intros Heq Hright fp' r Hr.
  destruct (decide (resolve P fp' = resolve P fp)) as [Hk|Hne].
  - rewrite Hk in *.
    destruct (evaluate_same_key _ _ _ _ _ _ _ _ _ _ _ _ Heq Hr)
      as (r' & Hr' & Hc & Hd).
    exists r'. split; [done|]. split_and!.
    + intros Hnone. by rewrite Hnone in Hc.
    + intros c' Hc' Hright'. rewrite Hc' in Hc.
      assert (checksum P fs0 fp' = checksum P fs0 fp) as Hsame.
      { unfold checksum, read_file. by rewrite Hk. }
      destruct Hc as [?|?]; congruence.
    + intros Hnone. by rewrite Hnone in Hd.
  - exists r. split; [|by auto].
    by rewrite (evaluate_other_keys _ _ _ _ _ _ _ _ _ _ _ _ Heq Hne).
Qed.
End Settling.

(** A loop whose turns keep an invariant [Inv], move the state along [R]
    and establish [Post] for their element. *)
Lemma for_each_invariant {A} (body : A -> M unit) (l : list A)
    (Inv : state -> Prop) (R : state -> state -> Prop) `{!PreOrder R}
    (Post : A -> state -> Prop) :
  (forall st st', Inv st -> R st st' -> Inv st') ->
  (forall x st st', Post x st -> R st st' -> Post x st') ->
  (forall x st, In x l -> Inv st ->
     R st (final (body x st)) /\
     (forall st', body x st = Cont tt st' -> Post x st')) ->
  forall st, Inv st ->
    R st (final (for_each body l st)) /\
    (forall st', for_each body l st = Cont tt st' ->
                 forall x, In x l -> Post x st').
Proof.
  intros Hinv Hpost. induction l as [|x l IH]; intros Hbody st Hst; simpl.
  - split; [reflexivity|]. intros st' _ y [].
  - destruct (Hbody x st (or_introl eq_refl) Hst) as [HR Hx].
    unfold bind. destruct (body x st) as [[] st1|o st1] eqn:Hb; simpl in *.
    + destruct (IH (fun y s Hy => Hbody y s (or_intror Hy)) st1 (Hinv _ _ Hst HR))
        as [HR' Hl].
      split; [by etrans|].
      intros st' Hrest y [<-|Hy].
      * eapply Hpost; [by apply Hx|].
        rewrite Hrest in HR'. exact HR'.
      * by eapply Hl.
    + split; [done|]. intros st' [=].
Qed.

Section FirstRun.
Context (P : platform) (args : Namespace) (fs0 : filesystem).
Hypothesis Hcontract :
  forall content module fnc g sp,
    exec_module P content = Some module ->
    target P args module fnc = Some (g, sp) ->
    honours_contract P g sp.
Hypothesis Hdisjoint :
  forall fp, In fp (sources P args fs0) -> ~ written P args (resolve P fp).

Local Abbreviation intact := (sources_intact P args fs0).
Local Abbreviation settles' := (settles P args fs0).
Local Abbreviation settled' := (settled P fs0).

Lemma sources_regular fp :
  In fp (sources P args fs0) -> is_reg (fs0 !! resolve P fp) = true.
Proof.
  unfold sources, src_files. rewrite in_flat_map.
  intros (d & _ & Hin). apply filter_In in Hin as [_ Hfile].
  by rewrite is_file_is_reg in Hfile.
Qed.

Lemma intact_quiet fs1 fs2 :
  intact fs1 -> quiet (written P args) fs1 fs2 -> intact fs2.
Proof.
  intros Hint Hq fp Hfp. rewrite <- (Hint fp Hfp).
  destruct (Hq (resolve P fp)) as [Heq|[HW _]]; [|done|].
  - rewrite (Hint fp Hfp). by apply sources_regular.
  - by destruct (Hdisjoint fp Hfp).
Qed.

Lemma intact_settles st st' : intact (fs st) -> settles' st st' -> intact (fs st').
Proof. intros Hint [Hq _]. by eapply intact_quiet. Qed.

Lemma intact_checksum fs1 fp :
  intact fs1 -> In fp (sources P args fs0) ->
  checksum P fs1 fp = checksum P fs0 fp.
Proof. intros Hint Hfp. apply checksum_node. by apply Hint. Qed.

Lemma intact_read_file fs1 fp :
  intact fs1 -> In fp (sources P args fs0) ->
  read_file P fs1 fp = read_file P fs0 fp.
Proof. intros Hint Hfp. apply read_file_node. by apply Hint. Qed.

(** One routine's turn in the first run. *)
Lemma run_routine_settles content module fp fnc st :
  exec_module P content = Some module ->
  In fp (sources P args fs0) -> intact (fs st) ->
  settles' st (final (run_routine P args fp module fnc st)) /\
  (forall st', run_routine P args fp module fnc st = Cont tt st' ->
     forall g sp, target P args module fnc = Some (g, sp) -> settled' st' fp sp).
Proof.
  intros Hmod Hfp Hint.
  destruct (target P args module fnc) as [[g sp]|] eqn:Ht.
  2:{ split; [|by intros]. apply same_but_stdout_settles.
      by apply run_routine_no_target. }
  pose proof (intact_checksum _ _ Hint Hfp) as Hsum.
  destruct (checksum P (fs st) fp) as [c|] eqn:Hc.
  2:{ rewrite (run_routine_unreadable P args _ _ _ _ _ _ Ht Hc).
      split; [reflexivity|]. intros st' [=]. }
  destruct (evaluate args fp fnc (resolve P fp) c (is_file P (fs st) sp)
                     (resolve P sp) (meta_content st))
    as [[d m'] said] eqn:He.
  destruct (run_routine_target P args _ _ _ _ _ _ _ _ _ _ Ht Hc He) as [Hm Hd].
  pose proof (evaluate_settles P args fs0 _ _ _ _ _ _ _ _ _ He (eq_sym Hsum))
    as Hstore.
  destruct (evaluate_record_after _ _ _ _ _ _ _ _ _ _ _ He) as (r' & Hr' & Hrec).
  set (r := run_routine P args fp module fnc st) in *.
  assert (Hquiet_same : fs (final r) = fs st ->
                        quiet (written P args) (fs st) (fs (final r))).
  { intros ->. reflexivity. }
  destruct d.
  - destruct Hd as (_ & Hfs & Hr).
    split; [split; [by apply Hquiet_same | by rewrite Hm]|].
    intros st' Hst' g' sp' [= <- <-]. rewrite Hr in Hst'.
    injection Hst' as <-. exists r'. rewrite Hm. split; [done|].
    right. exists c. destruct Hrec as [Hrc Hart].
    split; [done|]. split; [done|]. right. by rewrite Hfs.
  - destruct Hd as [_ Hd].
    destruct (call g sp (fs st)) as [fs'|] eqn:Hcall.
    + destruct Hd as [Hfs Hr].
      destruct (Hcontract _ _ _ _ _ Hmod Ht _ _ Hcall) as [Hfile Hframe].
      split.
      * split; [|by rewrite Hm]. rewrite Hfs. intros q Hq.
        destruct (decide (q = resolve P sp)) as [->|Hne].
        -- right. split; [|by rewrite <- is_file_is_reg].
           right. right. by exists content, module, fnc, g, sp.
        -- left. by apply Hframe.
      * intros st' Hst' g' sp' [= <- <-]. rewrite Hr in Hst'.
        injection Hst' as <-. exists r'. rewrite Hm. split; [done|].
        right. exists c. split; [done|]. split; [done|]. right.
        by rewrite Hfs.
    + destruct Hd as [Hfs Hr].
      split; [split; [by apply Hquiet_same | by rewrite Hm]|].
      intros st' Hst'. rewrite Hr in Hst'. discriminate Hst'.
  - destruct Hd as (_ & Hfs & Hr).
    split; [split; [by apply Hquiet_same | by rewrite Hm]|].
    intros st' Hst' g' sp' [= <- <-]. rewrite Hr in Hst'.
    injection Hst' as <-. exists r'. rewrite Hm. split; [done|].
    destruct Hrec as [Hnone|[Hrc Hdeps]]; [by left|].
    right. exists c. auto.
Qed.


Lemma file_settled_stable item st st' :
  file_settled P args fs0 st item -> settles' st st' -> file_settled P args fs0 st' item.
Proof.
  intros Hs Hst content module fnc g sp Hread Hmod Hfnc Ht.
  eapply settled_stable; [|done]. by eapply Hs.
Qed.

Lemma run_file_unfold fp fncts st :
  In fp (sources P args fs0) -> intact (fs st) ->
  run_file P args (fp, fncts) st =
  match read_file P fs0 fp with
  | Some content =>
      match exec_module P content with
      | Some module => for_each (run_routine P args fp module) fncts st
      | None => Stop (Raised ImportError) st
      end
  | None => Stop (Raised OSError) st
  end.
Proof.
  intros Hfp Hint. unfold run_file, bind, get_fs, raise.
  rewrite (intact_read_file _ _ Hint Hfp).
  by repeat case_match.
Qed.

Lemma run_file_settles item st :
  In item.1 (sources P args fs0) -> intact (fs st) ->
  settles' st (final (run_file P args item st)) /\
  (forall st', run_file P args item st = Cont tt st' -> file_settled P args fs0 st' item).
Proof.
  destruct item as [fp fncts]. intros Hfp Hint. simpl in Hfp.
  rewrite (run_file_unfold _ _ _ Hfp Hint).
  destruct (read_file P fs0 fp) as [content|] eqn:Hread;
    [|split; [reflexivity | intros st' [=]]].
  destruct (exec_module P content) as [module|] eqn:Hmod;
    [|split; [reflexivity | intros st' [=]]].
  destruct (for_each_invariant (run_routine P args fp module) fncts
              (fun s => intact (fs s)) settles'
              (fun fnc s => forall g sp,
                   target P args module fnc = Some (g, sp) -> settled' s fp sp))
    with (st := st) as [HR Hpost].
  - apply intact_settles.
  - intros fnc s s' Hs Hss g sp Ht.
    eapply settled_stable; [by eapply Hs | done].
  - intros fnc s _ Hs. by eapply run_routine_settles.
  - done.
  - split; [done|].
    intros st' Hst' content' module' fnc g sp Hread' Hmod' Hfnc Ht.
    simpl in *. assert (content' = content) as -> by congruence.
    assert (module' = module) as -> by congruence.
    by eapply Hpost.
Qed.

Lemma run_generators_settles fg st :
  (forall item, In item fg -> In item.1 (sources P args fs0)) ->
  intact (fs st) ->
  settles' st (final (run_generators P args fg st)) /\
  (forall st', run_generators P args fg st = Cont tt st' ->
               forall item, In item fg -> file_settled P args fs0 st' item).
Proof.
  intros Hfg Hint.
  set (st0 := final (when (verbose args && force args) (print VForced) st)).
  assert (run_generators P args fg st = for_each (run_file P args) fg st0
          /\ same_but_stdout st st0) as [-> Hsame].
  { unfold run_generators, bind, st0, when.
    by destruct (verbose args && force args). }
  destruct (for_each_invariant (run_file P args) fg
              (fun s => intact (fs s)) settles' (fun item s => file_settled P args fs0 s item))
    with (st := st0) as [HR Hpost].
  - apply intact_settles.
  - intros item s s'. apply file_settled_stable.
  - intros item s Hitem Hs. apply run_file_settles; auto.
  - destruct Hsame as (Hfs & _). by rewrite Hfs.
  - split; [|done]. etrans; [|done]. by apply same_but_stdout_settles.
Qed.
End FirstRun.

(** ** The second run *)

Lemma bind_cont {A B} (m : M A) (k : A -> M B) st b st' :
  bind m k st = Cont b st' ->
  exists a s, m st = Cont a s /\ k a s = Cont b st'.
Proof.
  unfold bind. destruct (m st) as [a s|o s]; [|discriminate].
  intros Hk. by exists a, s.
Qed.

(** With the store settled and [--force] off, evaluation changes nothing
    and does not decide [Run]. *)
Lemma evaluate_idle args fp fnc full_fp c artifact dependent (m : store) r :
  force args = false ->
  m !! full_fp = Some r ->
  rec_checksum r = None \/
  (rec_checksum r = Some c /\ (rec_dependents r = None \/ artifact = true)) ->
  exists d said,
    evaluate args fp fnc full_fp c artifact dependent m = (d, m, said) /\
    d <> Run.
Proof.
  intros Hforce Hr Hcase. unfold evaluate. rewrite Hr, Hforce.
  destruct Hcase as [->|[-> Hrest]]; [by eexists _, _|].
  rewrite String.eqb_refl. simpl.
  destruct artifact; [by eexists _, _|].
  destruct Hrest as [Hd|?]; [|done].
  unfold check_dependents. rewrite Hr, Hd. by eexists _, _.
Qed.

Lemma cleanup_stop (P : platform) (args : Namespace) st o st' :
  cleanup P args st = Stop o st' -> st' = st.
Proof.
  unfold cleanup. unfold_run.
  repeat (case_match; simpl in * ); simplify_eq; try done; by intros [= _ <-].
Qed.

Section SecondRun.
Context (P : platform) (args : Namespace) (fs0 : filesystem).
Hypothesis Hforce : force args = false.

Local Abbreviation intact := (sources_intact P args fs0).

Lemma run_routine_idle module fp fnc st :
  checksum P (fs st) fp = checksum P fs0 fp ->
  (forall g sp, target P args module fnc = Some (g, sp) ->
                settled P fs0 st fp sp) ->
  same_but_stdout st (final (run_routine P args fp module fnc st)).
Proof.
  intros Hsum Hsettled.
  destruct (target P args module fnc) as [[g sp]|] eqn:Ht;
    [|by apply run_routine_no_target].
  destruct (Hsettled g sp eq_refl) as (r & Hr & Hcase).
  destruct (checksum P (fs st) fp) as [c|] eqn:Hc.
  2:{ by rewrite (run_routine_unreadable P args _ _ _ _ _ _ Ht Hc). }
  destruct (evaluate_idle args fp fnc (resolve P fp) c (is_file P (fs st) sp)
              (resolve P sp) (meta_content st) r Hforce Hr)
    as (d & said & He & Hd).
  { destruct Hcase as [?|(c' & Hc' & Hright & Hrest)]; [by left|right].
    assert (c' = c) as -> by congruence. done. }
  destruct (run_routine_target P args _ _ _ _ _ _ _ _ _ _ Ht Hc He)
    as [Hm Hres].
  destruct d; [|done|]; destruct Hres as (Hex & Hfs & _); done.
Qed.

Lemma run_file_idle item st :
  In item.1 (sources P args fs0) -> intact (fs st) ->
  file_settled P args fs0 st item ->
  same_but_stdout st (final (run_file P args item st)).
Proof.
  destruct item as [fp fncts]. intros Hfp Hint Hsettled. simpl in Hfp.
  rewrite (run_file_unfold P args fs0 _ _ _ Hfp Hint).
  destruct (read_file P fs0 fp) as [content|] eqn:Hread; [|done].
  destruct (exec_module P content) as [module|] eqn:Hmod; [|done].
  destruct (for_each_invariant (run_routine P args fp module) fncts
              (fun s => same_but_stdout st s)
              (fun s s' => same_but_stdout s s')
              (fun _ _ => True))
    with (st := st) as [HR _]; try done.
  - intros s s' Hs Hss. by etrans.
  - intros fnc s Hfnc (Hfs & Hm & Hex). split; [|done].
    apply run_routine_idle.
    + rewrite Hfs. by apply (intact_checksum P args fs0).
    + intros g sp Ht.
      destruct (Hsettled content module fnc g sp Hread Hmod Hfnc Ht)
        as (r & Hr & Hcase).
      exists r. by rewrite Hm, Hfs.
Qed.

Lemma run_generators_idle fg st :
  (forall item, In item fg -> In item.1 (sources P args fs0)) ->
  intact (fs st) ->
  (forall item, In item fg -> file_settled P args fs0 st item) ->
  same_but_stdout st (final (run_generators P args fg st)).
Proof.
  intros Hfg Hint Hsettled.
  set (st0 := final (when (verbose args && force args) (print VForced) st)).
  assert (run_generators P args fg st = for_each (run_file P args) fg st0
          /\ same_but_stdout st st0) as [-> Hsame].
  { unfold run_generators, bind, st0, when.
    by destruct (verbose args && force args). }
  destruct (for_each_invariant (run_file P args) fg
              (fun s => same_but_stdout st s)
              (fun s s' => same_but_stdout s s')
              (fun _ _ => True))
    with (st := st0) as [HR _]; try done.
  - intros s s' Hs Hss. by etrans.
  - intros item s Hitem (Hfs & Hm & Hex). split; [|done].
    apply run_file_idle; [by apply Hfg | by rewrite Hfs |].
    intros content module fnc g sp Hread Hmod Hfnc Ht.
    destruct (Hsettled item Hitem content module fnc g sp Hread Hmod Hfnc Ht)
      as (r & Hr & Hcase).
    exists r. by rewrite Hm, Hfs.
  - by etrans.
Qed.
End SecondRun.

(** ** Discovery does not depend on what the run writes *)

Lemma dict_get_in {V} (k : string) (v : V) (d : pydict V) :
  In (k, v) d -> exists v', dict_get k d = Some v'.
Proof.
  induction d as [|[k' v'] d IH]; simpl; [done|].
  intros [[= -> ->]|Hin].
  - rewrite String.eqb_refl. by eexists.
  - destruct (String.eqb k' k); [by eexists | auto].
Qed.

Section DiscoveryAgain.
Context (P : platform) (args : Namespace).

Lemma find_generators_same :
  keeps (fun st st' => same_but_stdout st st') (find_generators P args).
Proof.
  unfold find_generators, vprint.
  repeat (apply keeps_bind;
          [apply _
          |first [apply keeps_when; [apply _ | apply print_same] | by intros st]
          |intros ?]).
  apply keeps_for_fold; [apply _|]. intros file fg _. apply filter_file_same.
Qed.

Lemma find_generators_loop st fg st' :
  find_generators P args st = Cont fg st' ->
  exists s, same_but_stdout st s /\
            for_fold (filter_file P args) (src_files P args (fs st)) [] s
            = Cont fg st'.
Proof.
  unfold find_generators, vprint, when. unfold_run.
  destruct (verbose args); simpl; intros Heq; eexists; (split; [|exact Heq]);
    done.
Qed.

Lemma find_generators_keys st fg st' item :
  find_generators P args st = Cont fg st' -> In item fg ->
  In item.1 (src_files P args (fs st)).
Proof.
  intros Hfind Hitem. destruct item as [fp fncts]. simpl.
  destruct (find_generators_cont P args _ _ _ Hfind) as (_ & Hout & _).
  destruct (in_dec string_dec fp (src_files P args (fs st))) as [?|Hnot];
    [done|].
  destruct (dict_get_in _ _ _ Hitem) as [v Hv].
  rewrite (Hout fp Hnot) in Hv. discriminate Hv.
Qed.

Lemma filter_loop_det files : forall fg s1 s2 fg1 fg2 s1' s2',
  (forall file, In file files ->
                read_file P (fs s1) file = read_file P (fs s2) file) ->
  for_fold (filter_file P args) files fg s1 = Cont fg1 s1' ->
  for_fold (filter_file P args) files fg s2 = Cont fg2 s2' ->
  fg1 = fg2.
Proof.
  induction files as [|x files IH]; intros fg s1 s2 fg1 fg2 s1' s2' Hread; simpl.
  - by intros [= <- _] [= <- _].
  - intros H1 H2.
    apply bind_cont in H1 as (a1 & t1 & Hx1 & Hrest1).
    apply bind_cont in H2 as (a2 & t2 & Hx2 & Hrest2).
    pose proof (filter_file_same P args x fg s1) as Hs1. rewrite Hx1 in Hs1.
    pose proof (filter_file_same P args x fg s2) as Hs2. rewrite Hx2 in Hs2.
    destruct Hs1 as (Hfs1 & _). destruct Hs2 as (Hfs2 & _). simpl in *.
    destruct (filter_file_cont P args _ _ _ _ _ Hx1) as (tree1 & Ht1 & ->).
    destruct (filter_file_cont P args _ _ _ _ _ Hx2) as (tree2 & Ht2 & ->).
    assert (tree1 = tree2) as ->.
    { unfold parsed in *. rewrite (Hread x) in Ht1 by (by left). congruence. }
    eapply IH; [|exact Hrest1|exact Hrest2].
    intros file Hfile. rewrite Hfs1, Hfs2. apply Hread. by right.
Qed.

Lemma find_generators_det s1 s2 fg1 fg2 s1' s2' :
  src_files P args (fs s2) = src_files P args (fs s1) ->
  (forall file, In file (src_files P args (fs s1)) ->
                read_file P (fs s1) file = read_file P (fs s2) file) ->
  find_generators P args s1 = Cont fg1 s1' ->
  find_generators P args s2 = Cont fg2 s2' ->
  fg1 = fg2.
Proof.
  intros Hfiles Hread H1 H2.
  apply find_generators_loop in H1 as (t1 & (Hfs1 & _) & H1).
  apply find_generators_loop in H2 as (t2 & (Hfs2 & _) & H2).
  rewrite Hfiles in H2.
  eapply filter_loop_det; [|exact H1|exact H2].
  intros file Hfile. rewrite Hfs1, Hfs2. by apply Hread.
Qed.
End DiscoveryAgain.

(** ** Two runs in a row *)

Lemma final_bind {A B} (m : M A) (k : A -> M B) st :
  final (bind m k st) =
  match m st with
  | Cont a s => final (k a s)
  | Stop _ s => s
  end.
Proof. unfold bind. by destruct (m st). Qed.

Lemma main_stop_not_done (P : platform) (args : Namespace) st o st' :
  main P args st = Stop o st' -> o <> Done.
Proof.
  rewrite main_unfold. unfold bind.
  destruct (validate_spec P args st)
    as [(_ & s & -> & _)|(_ & [(s & -> & _)| ->])].
  - by intros [= <- _].
  - intros Hrest. by apply after_validation_never_exits in Hrest as [e ->].
  - by intros [= <- _].
Qed.

Lemma run_main_done (P : platform) (args : Namespace) fs1 st1 :
  run_main P args fs1 = (Done, st1) -> main P args (initial fs1) = Cont tt st1.
Proof.
  unfold run_main.
  destruct (main P args (initial fs1)) as [[] s|o s] eqn:Hmain.
  - by intros [= ->].
  - intros [= -> _]. by apply main_stop_not_done in Hmain.
Qed.

Lemma run_main_final (P : platform) (args : Namespace) fs1 :
  snd (run_main P args fs1) = final (main P args (initial fs1)).
Proof. unfold run_main. by destruct (main P args (initial fs1)). Qed.

Section Idempotence.
Context (P : platform) (args : Namespace) (fs0 : filesystem).
Hypothesis Hforce : force args = false.
Hypothesis Hcontract :
  forall content module fnc g sp,
    exec_module P content = Some module ->
    target P args module fnc = Some (g, sp) ->
    honours_contract P g sp.
Hypothesis Hdisjoint :
  forall fp, In fp (sources P args fs0) -> ~ written P args (resolve P fp).
Hypothesis Hlisting :
  forall fs1, sources_intact P args fs0 fs1 ->
              src_files P args fs1 = sources P args fs0.

Local Abbreviation intact := (sources_intact P args fs0).
Local Abbreviation W := (written P args).

Lemma validate_quiet st st' :
  validate P args st = Cont tt st' ->
  quiet W (fs st) (fs st') /\
  meta_content st' = meta_content st /\ executed st' = executed st.
Proof.
  intros Hv.
  destruct (validate_spec P args st)
    as [(_ & s & Hs & _)|(_ & [(s & Hs & Hm & He & _ & _ & Hfs)|Hs])];
    rewrite Hs in Hv; try discriminate Hv.
  injection Hv as <-. split; [|done].
  destruct Hfs as [->|[Hnone ->]]; [reflexivity|].
  by apply quiet_insert_fresh.
Qed.

Lemma cleanup_quiet st st' :
  cleanup P args st = Cont tt st' ->
  quiet W (fs st) (fs st') /\
  meta_content st' = meta_content st /\ executed st' = executed st.
Proof.
  intros Hc. pose proof (cleanup_spec P args st) as Hspec.
  rewrite Hc in Hspec. simpl in Hspec.
  destruct Hspec as (Hm & He & Hfs). split; [|done].
  destruct Hfs as [->|[[Hdir ->]|Hw]].
  - reflexivity.
  - by apply quiet_delete_dir.
  - apply write_file_some in Hw as (-> & _). apply quiet_insert_file; [|done].
    right. by left.
Qed.

Lemma save_metadata_quiet st st' :
  save_metadata P args st = Cont tt st' ->
  quiet W (fs st) (fs st') /\
  meta_content st' = meta_content st /\ executed st' = executed st /\
  json_load P (fs st') (metafile args) = Some (meta_content st).
Proof.
  intros Hs. pose proof (save_metadata_spec P args st) as Hspec.
  rewrite Hs in Hspec. destruct Hspec as (Hm & He & Hw).
  apply write_file_some in Hw as (-> & _).
  split_and!; try done.
  - apply quiet_insert_file; [by left | done].
  - unfold json_load. by rewrite lookup_insert_eq.
Qed.

Lemma intact_start : intact fs0.
Proof. by intros fp _. Qed.

Lemma quiet_settles st st' :
  quiet W (fs st) (fs st') -> meta_content st' = meta_content st ->
  settles P args fs0 st st'.
Proof. intros Hq Hm. split; [done|]. rewrite Hm. reflexivity. Qed.

(** What a completed first run leaves. *)
Lemma first_run_facts st1 :
  main P args (initial fs0) = Cont tt st1 ->
  intact (fs st1) /\
  json_load P (fs st1) (metafile args) = Some (meta_content st1) /\
  exists fg sb sc,
    intact (fs sb) /\
    find_generators P args sb = Cont fg sc /\
    (forall item, In item fg -> In item.1 (sources P args fs0)) /\
    (forall item, In item fg -> file_settled P args fs0 st1 item).
Proof.
  rewrite main_unfold. intros Hmain.
  apply bind_cont in Hmain as ([] & sa & Hval & Hrest).
  unfold after_validation in Hrest.
  apply bind_cont in Hrest as ([] & sb & Hload & Hrest).
  apply bind_cont in Hrest as (fg & sc & Hfind & Hrest).
  apply bind_cont in Hrest as ([] & sd & Hgen & Hrest).
  apply bind_cont in Hrest as ([] & se & Hclean & Hsave).
  destruct (validate_quiet _ _ Hval) as (Hqa & _).
  pose proof (intact_quiet P args fs0 Hdisjoint _ _ intact_start Hqa) as Hia.
  pose proof (load_metadata_spec P args sa) as Hl. rewrite Hload in Hl.
  destruct Hl as (Hfsb & _).
  assert (intact (fs sb)) as Hib by (by rewrite Hfsb).
  pose proof (find_generators_same P args sb) as Hsc. rewrite Hfind in Hsc.
  destruct Hsc as (Hfsc & _). simpl in Hfsc.
  assert (intact (fs sc)) as Hic by (by rewrite Hfsc).
  assert (Hkeys : forall item, In item fg -> In item.1 (sources P args fs0)).
  { intros item Hitem. rewrite <- (Hlisting _ Hib).
    by eapply find_generators_keys. }
  destruct (run_generators_settles P args fs0 Hcontract Hdisjoint fg sc Hkeys Hic)
    as [Hsd Hsettled].
  rewrite Hgen in Hsd. simpl in Hsd. specialize (Hsettled sd Hgen).
  destruct (cleanup_quiet _ _ Hclean) as (Hqe & Hme & _).
  destruct (save_metadata_quiet _ _ Hsave) as (Hq1 & Hm1 & _ & Hjson).
  pose proof (quiet_settles _ _ Hqe Hme) as Hse.
  pose proof (quiet_settles _ _ Hq1 Hm1) as Hs1.
  assert (settles P args fs0 sd st1) as Hd1 by (by etrans).
  split_and!.
  - eapply (intact_settles P args fs0 Hdisjoint); [|exact Hd1].
    by eapply (intact_settles P args fs0 Hdisjoint).
  - by rewrite Hm1.
  - exists fg, sb, sc. split_and!; try done.
    intros item Hitem. eapply file_settled_stable; [|exact Hd1]. auto.
Qed.

(** The second run from discovery on: nothing is called and the store on
    disk ends as it was. *)
Lemma second_run_tail (m1 : store) fg s :
  intact (fs s) ->
  (forall item, In item fg -> In item.1 (sources P args fs0)) ->
  (forall item, In item fg -> file_settled P args fs0 s item) ->
  (forall fg2 sc2, find_generators P args s = Cont fg2 sc2 -> fg2 = fg) ->
  meta_content s = m1 -> executed s = [] ->
  json_load P (fs s) (metafile args) = Some m1 ->
  let s' := final ((fig_generators <- find_generators P args ;;
                    run_generators P args fig_generators ;;;
                    cleanup P args ;;;
                    save_metadata P args)%run s) in
  executed s' = [] /\ json_load P (fs s') (metafile args) = Some m1.
Proof.
  intros Hint Hkeys Hsettled Hdet Hm Hex Hjson. simpl.
  assert (Hgood : forall t, same_but_stdout s t ->
            executed t = [] /\ json_load P (fs t) (metafile args) = Some m1).
  { intros t (Hfs & _ & He). by rewrite Hfs, He. }
  rewrite final_bind.
  pose proof (find_generators_same P args s) as Hsc.
  destruct (find_generators P args s) as [fg2 sc|o sc] eqn:Hfind;
    simpl in Hsc; [|by apply Hgood].
  assert (fg2 = fg) as -> by (by apply (Hdet fg2 sc)).
  rewrite final_bind.
  assert (same_but_stdout sc (final (run_generators P args fg sc))) as Hsd.
  { destruct Hsc as (Hfs & Hmc & _).
    apply (run_generators_idle P args fs0 Hforce); try done.
    - by rewrite Hfs.
    - intros item Hitem content module fnc g sp Hread Hmod Hfnc Ht.
      destruct (Hsettled item Hitem content module fnc g sp Hread Hmod Hfnc Ht)
        as (r & Hr & Hcase).
      exists r. by rewrite Hmc, Hfs. }
  destruct (run_generators P args fg sc) as [[] sd|o sd]; simpl in Hsd;
    [|apply Hgood; by etrans].
  assert (same_but_stdout s sd) as Hssd by (by etrans).
  destruct (Hgood sd Hssd) as [Hexd Hjsond].
  rewrite final_bind.
  pose proof (cleanup_spec P args sd) as Hclean.
  destruct (cleanup P args sd) as [[] se|o se] eqn:Hcl.
  2:{ apply cleanup_stop in Hcl as ->. done. }
  simpl in Hclean. destruct Hclean as (Hme & Hee & Hfse).
  pose proof (save_metadata_spec P args se) as Hsave.
  destruct (save_metadata P args se) as [[] sf|o sf]; simpl.
  - destruct Hsave as (_ & Hef & Hw).
    apply write_file_some in Hw as (-> & _).
    split; [congruence|]. unfold json_load. rewrite lookup_insert_eq.
    destruct Hssd as (_ & Hmd & _). congruence.
  - destruct Hsave as [-> Hw]. split; [congruence|].
    assert (fs sd !! resolve P (metafile args) = Some (JsonFile m1)) as Hnode.
    { unfold json_load in Hjsond. repeat case_match; by simplify_eq. }
    destruct Hfse as [->|[[Hdir ->]|Hgit]]; [done| |].
    + unfold json_load. rewrite lookup_delete_ne; [by rewrite Hnode|].
      intros Heq. congruence.
    + destruct (decide (resolve P (joinpath P (out args) ".gitignore")
                        = resolve P (metafile args))) as [Heq|Hne].
      * exfalso. destruct (write_file_some P _ _ _ _ Hgit) as (Hfs & Hnd & Hpar).
        revert Hw. unfold write_file. rewrite Hfs, <- Heq, lookup_insert_eq.
        rewrite lookup_insert_ne by congruence. by rewrite Hpar.
      * apply write_file_some in Hgit as (-> & _).
        unfold json_load. rewrite lookup_insert_ne by done. by rewrite Hnode.
Qed.
Lemma two_runs st1 :
  run_main P args fs0 = (Done, st1) ->
  executed (snd (run_main P args (fs st1))) = [] /\
  json_load P (fs st1) (metafile args) = Some (meta_content st1) /\
  json_load P (fs (snd (run_main P args (fs st1)))) (metafile args)
  = Some (meta_content st1).
Proof.
  intros Hrun.
  pose proof (run_main_done _ _ _ _ Hrun) as Hmain.
  destruct (first_run_facts _ Hmain)
    as (Hint1 & Hjson1 & fg & sb & sc & Hib & Hfind & Hkeys & Hsettled).
  set (m1 := meta_content st1) in *.
  cut (executed (final (main P args (initial (fs st1)))) = [] /\
       json_load P (fs (final (main P args (initial (fs st1))))) (metafile args)
       = Some m1).
  { rewrite run_main_final. tauto. }
  assert (Hgood : forall t, same_but_stdout (initial (fs st1)) t ->
            executed t = [] /\ json_load P (fs t) (metafile args) = Some m1).
  { intros t (Hfs & _ & He). by rewrite Hfs, He. }
  rewrite main_unfold, final_bind.
  destruct (validate_spec P args (initial (fs st1)))
    as [(_ & s & -> & Hs)|(_ & [(sa & Hval & Hma & Hea & _ & _ & Hfsa)| ->])];
    [by apply Hgood | | by apply Hgood].
  rewrite Hval. simpl in Hma, Hea, Hfsa.
  destruct (validate_quiet _ _ Hval) as (Hqa & _). simpl in Hqa.
  assert (fs st1 !! resolve P (metafile args) = Some (JsonFile m1)) as Hnode.
  { unfold json_load in Hjson1. repeat case_match; by simplify_eq. }
  assert (json_load P (fs sa) (metafile args) = Some m1) as Hjsona.
  { destruct Hfsa as [->|[Hnone ->]]; [done|].
    unfold json_load. rewrite lookup_insert_ne; [by rewrite Hnode|].
    intros Heq. congruence. }
  unfold after_validation. rewrite final_bind.
  pose proof (load_metadata_spec P args sa) as Hload.
  destruct (load_metadata P args sa) as [[] sb2|o sb2].
  2:{ destruct Hload as (Hfs & _ & He). by rewrite Hfs, He. }
  destruct Hload as (Hfsb & Heb & Hmb).
  assert (meta_content sb2 = m1) as Hmb2.
  { destruct Hmb as [Hj|[Hex _]]; [congruence|].
    unfold path_exists, json_load in *. repeat case_match; by simplify_eq. }
  assert (intact (fs sb2)) as Hib2.
  { rewrite Hfsb.
    exact (intact_quiet P args fs0 Hdisjoint (fs st1) (fs sa) Hint1 Hqa). }
  apply (second_run_tail m1 fg sb2); try done.
  - intros item Hitem.
    apply (file_settled_stable P args fs0 item st1); [by apply Hsettled|].
    split; [by rewrite Hfsb|]. rewrite Hmb2. reflexivity.
  - intros fg2 sc2 Hfind2. symmetry.
    eapply (find_generators_det P args sb sb2); [| |exact Hfind|exact Hfind2].
    + by rewrite (Hlisting _ Hib), (Hlisting _ Hib2).
    + intros file Hfile. rewrite (Hlisting _ Hib) in Hfile.
      rewrite (intact_read_file P args fs0 _ _ Hib Hfile).
      by rewrite (intact_read_file P args fs0 _ _ Hib2 Hfile).
  - congruence.
  - by rewrite Hfsb.
Qed.
End Idempotence.



Lemma line_platform_targets content module fnc g sp :
  exec_module line_platform content = Some module ->
  target line_platform Toy.example_args module fnc = Some (g, sp) ->
  sp = "/w/figures/line.pdf" /\ call g = Toy.savefig "line pdf".
Proof.
  unfold line_platform, Toy.make, exec_module, Toy.find_source.
  destruct (String.eqb (Toy.text Toy.line_py) (string_of_list_byte content));
    [|discriminate].
  intros [= <-]. unfold target.
  destruct (decide (fnc = "fig_line")) as [->|Hne].
  - rewrite lookup_singleton_eq. simpl. by intros [= <- <-].
  - rewrite lookup_singleton_ne by done. discriminate.
Qed.

Lemma savefig_contract (g : callable) (sp data : string) :
  call g = Toy.savefig data -> honours_contract line_platform g sp.
Proof.
  intros Hcall fs1 fs2. rewrite Hcall. unfold Toy.savefig. intros [= <-].
  split.
  - unfold is_file. simpl. by rewrite lookup_insert_eq.
  - intros q _ Hne. simpl in Hne. by rewrite lookup_insert_ne.
Qed.


(** ** The store across a whole run *)

Lemma run_main_grows (P : platform) (args : Namespace) (fs0 : filesystem)
    (doc : store) (st1 : state) :
  run_main P args fs0 = (Done, st1) ->
  json_load P fs0 (metafile args) = Some doc ->
  dependents_grow doc (meta_content st1) /\
  json_load P (fs st1) (metafile args) = Some (meta_content st1).
Proof.
  intros Hrun Hdoc. apply run_main_done in Hrun as Hmain.
  rewrite main_unfold in Hmain.
  apply bind_cont in Hmain as ([] & sa & Hval & Hrest).
  unfold after_validation in Hrest.
  apply bind_cont in Hrest as ([] & sb & Hload & Hrest).
  apply bind_cont in Hrest as (fg & sc & Hfind & Hrest).
  apply bind_cont in Hrest as ([] & sd & Hgen & Hrest).
  apply bind_cont in Hrest as ([] & se & Hclean & Hsave).
  assert (json_load P (fs sa) (metafile args) = Some doc) as Hdoca.
  { destruct (validate_spec P args (initial fs0))
      as [(_ & s & Hs & _)|(_ & [(s & Hs & _ & _ & _ & _ & Hfs)|Hs])];
      rewrite Hs in Hval; try discriminate Hval.
    injection Hval as <-. simpl in Hfs. destruct Hfs as [->|[Hnone ->]]; [done|].
    unfold json_load in *. rewrite lookup_insert_ne; [done|].
    intros Heq. rewrite <- Heq, Hnone in Hdoc. discriminate Hdoc. }
  pose proof (load_metadata_spec P args sa) as Hl. rewrite Hload in Hl.
  destruct Hl as (_ & _ & Hmb).
  assert (meta_content sb = doc) as Hmb'.
  { destruct Hmb as [Hj|[Hex _]]; [congruence|].
    unfold path_exists, json_load in *. repeat case_match; by simplify_eq. }
  pose proof (find_generators_same P args sb) as Hsc. rewrite Hfind in Hsc.
  destruct Hsc as (_ & Hmc & _). simpl in Hmc.
  pose proof (run_generators_grows P args fg sc) as Hsd. rewrite Hgen in Hsd.
  unfold store_grows in Hsd. simpl in Hsd.
  pose proof (cleanup_spec P args sd) as Hcl. rewrite Hclean in Hcl.
  destruct Hcl as (Hme & _). simpl in Hme.
  pose proof (save_metadata_spec P args se) as Hsv. rewrite Hsave in Hsv.
  destruct Hsv as (Hm1 & _ & Hw).
  apply write_file_some in Hw as (Hfs1 & _).
  split.
  - rewrite Hm1, Hme, <- Hmb', <- Hmc. exact Hsd.
  - rewrite Hfs1, Hm1. unfold json_load. by rewrite lookup_insert_eq.
Qed.

(** C7: the loop over the discovered routines never removes a record or an
    entry of a dependents list, however it ends, and the store a completed
    run writes back holds every record and every dependent the store it
    loaded held; adding a path that is already listed changes nothing; and
    after a [Run] decision the resolved output path is among the dependents
    of the file's record. *)
Theorem dependents_only_grow (P : platform) (args : Namespace) :
  (forall fig_generators st,
      dependents_grow
        (meta_content st)
        (meta_content (final (run_generators P args fig_generators st)))) /\
  (forall fs0 doc st1,
      run_main P args fs0 = (Done, st1) ->
      json_load P fs0 (metafile args) = Some doc ->
      dependents_grow doc (meta_content st1) /\
      json_load P (fs st1) (metafile args) = Some (meta_content st1)) /\
  (forall p deps, p ∈ deps -> add_dependent p deps = deps) /\
  (forall p x deps, x ∈ deps -> x ∈ add_dependent p deps) /\
  (forall fp module fnc st fig_gen save_path c m' said,
      target P args module fnc = Some (fig_gen, save_path) ->
      checksum P (fs st) fp = Some c ->
      evaluate args fp fnc (resolve P fp) c (is_file P (fs st) save_path)
               (resolve P save_path) (meta_content st) = (Run, m', said) ->
      exists deps,
        meta_content (final (run_routine P args fp module fnc st))
          !! resolve P fp = Some (mkRecord (Some c) (Some deps)) /\
        resolve P save_path ∈ deps).
Proof.
  split_and!.
  - intros fg st. apply (run_generators_grows P args fg st).
  - apply run_main_grows.
  - apply add_dependent_present.
  - intros p x deps. apply add_dependent_keeps.
  - intros fp module fnc st g sp c m' said Ht Hc He.
    destruct (run_routine_target P args _ _ _ _ _ _ _ _ _ _ Ht Hc He)
      as [-> _].
    by eapply evaluate_run_record.
Qed.



Lemma dependents_only_grow_witness :
  exists deps,
    meta_content
      (final (run_routine Toy.example_platform Toy.example_args
                "/w/example/figscripts/parabola.py" parabola_module
                "fig_parabola2" after_fig_parabola))
      !! "/w/example/figscripts/parabola.py"
    = Some (mkRecord (Some "parabola.py text") (Some deps)) /\
    "/w/figures/curve2.pdf" ∈ deps.
Proof.
  eapply (proj2 (proj2 (proj2 (proj2
            (dependents_only_grow Toy.example_platform Toy.example_args))))
            "/w/example/figscripts/parabola.py" parabola_module
            "fig_parabola2" after_fig_parabola).
  - reflexivity.
  - reflexivity.
  - reflexivity.
Defined.

(** * Further properties of the code *)

(** ** The decorator and the runner *)

(** X1: a function of one [Path] parameter decorated with [figarotag] is
    always evaluated by the runner, with the save path
    [out / (name or its own name) . (ext or "pdf")], where an empty string
    counts as not given; its turn never ends in the internal-logic
    [AttributeError] or the [TypeError] of [inspect.signature]: it returns,
    or the checksum or the routine itself raises. *)
Theorem decorated_routine_is_evaluated (P : platform) (args : Namespace)
    (module : pymodule) (fnc : string) (name ext : option string)
    (func_name : string) (func : callable) :
  module !! fnc = Some (Function (figarotag name ext func_name func)) ->
  params func = [AnnPath] ->
  target P args module fnc =
    Some (figarotag name ext func_name func,
          joinpath P (out args)
                   (py_or name func_name ++ "." ++ py_or ext "pdf")) /\
  py_or (Some "") func_name = func_name /\
  py_or None func_name = func_name /\
  (forall fp st o st',
      run_routine P args fp module fnc st = Stop o st' ->
      o = Raised OSError \/ o = Raised RoutineError).
Proof.
  intros Hm Hp.
  assert (target P args module fnc =
          Some (figarotag name ext func_name func,
                joinpath P (out args)
                         (py_or name func_name ++ "." ++ py_or ext "pdf")))
    as Ht.
  { unfold target. rewrite Hm. simpl. by rewrite Hp. }
  split_and!; try done.
  intros fp st o st' Hstop.
  destruct (checksum P (fs st) fp) as [c|] eqn:Hc.
  - destruct (evaluate args fp fnc (resolve P fp) c
                (is_file P (fs st)
                   (joinpath P (out args)
                      (py_or name func_name ++ "." ++ py_or ext "pdf")))
                (resolve P (joinpath P (out args)
                      (py_or name func_name ++ "." ++ py_or ext "pdf")))
                (meta_content st))
      as [[d m'] said] eqn:He.
    destruct (run_routine_target P args _ _ _ _ _ _ _ _ _ _ Ht Hc He)
      as [_ Hd].
    simpl in Hd. rewrite Hstop in Hd. destruct d.
    + by destruct Hd as (_ & _ & ?).
    + destruct Hd as [_ Hd]. destruct (call _ _ (fs st)).
      * by destruct Hd.
      * destruct Hd as [_ [= ->]]. by right.
    + by destruct Hd as (_ & _ & ?).
  - rewrite (run_routine_unreadable P args _ _ _ _ _ _ Ht Hc) in Hstop.
    injection Hstop as <- _. by left.
Qed.

Lemma decorated_routine_is_evaluated_witness :
  target Toy.example_platform Toy.example_args
         (one_routine_module "fig_plain"
            (figarotag None (Some "") "fig_plain" (Toy.plain_def "pdf")))
         "fig_plain"
  = Some (figarotag None (Some "") "fig_plain" (Toy.plain_def "pdf"),
          "/w/figures/fig_plain.pdf").
Proof.
  refine (proj1 (decorated_routine_is_evaluated
                   Toy.example_platform Toy.example_args
                   (one_routine_module "fig_plain"
                      (figarotag None (Some "") "fig_plain" (Toy.plain_def "pdf")))
                   "fig_plain" None (Some "") "fig_plain" (Toy.plain_def "pdf")
                   _ _)).
  - reflexivity.
  - reflexivity.
Defined.

(** ** Validation *)

Lemma validate_cont (P : platform) (args : Namespace) st st' :
  validate P args st = Cont tt st' ->
  fs st' = after_mkdir P args (fs st) /\
  meta_content st' = meta_content st /\
  executed st' = executed st /\
  stdout st' = stdout st /\
  is_dir P (fs st') (out args) = true.
Proof.
  intros Hv.
  destruct (validate_spec P args st)
    as [(_ & s & Hs & _)|(_ & [(s & Hs & Hm & He & Ho & Hd & Hfs)|Hs])];
    rewrite Hs in Hv; try discriminate Hv.
  injection Hv as <-. split_and!; try done.
  unfold after_mkdir, path_exists.
  destruct Hfs as [Hfs|[Hnone Hfs]].
  - unfold is_dir in Hd. rewrite Hfs in Hd.
    by destruct (fs st !! resolve P (out args)).
  - by rewrite Hnone.
Qed.

(** X2: when validation lets the run go on, there is at least one search
    root, every search root exists and is a directory, the output path is a
    directory, nothing was printed, and the only change on disk is the output
    directory, made when nothing was at its path. *)
Theorem validate_postcondition (P : platform) (args : Namespace)
    (st st' : state) :
  validate P args st = Cont tt st' ->
  (exists d dirs, dir args = Some (d :: dirs) /\
     forall d', In d' (d :: dirs) ->
                path_exists P (fs st) d' = true /\ is_dir P (fs st) d' = true) /\
  is_dir P (fs st') (out args) = true /\
  stdout st' = stdout st /\
  meta_content st' = meta_content st /\
  executed st' = executed st /\
  (fs st' = fs st \/
   fs st !! resolve P (out args) = None /\
   fs st' = <[resolve P (out args) := Dir]> (fs st)).
Proof.
  intros Hv.
  destruct (validate_spec P args st)
    as [(_ & s & Hs & _)|(Hok & [(s & Hs & Hm & He & Ho & Hd & Hfs)|Hs])];
    rewrite Hs in Hv; try discriminate Hv.
  injection Hv as <-. split_and!; try done.
  unfold validation_failure in Hok.
  destruct (dir args) as [[|d dirs]|] eqn:Hdir.
  - exfalso. apply Hok. left. by right.
  - exists d, dirs. split; [done|]. intros d' Hd'.
    destruct (path_exists P (fs st) d') eqn:Hex;
      [destruct (is_dir P (fs st) d') eqn:Hisd; [done|]|];
      exfalso; apply Hok; right; left; exists (d :: dirs), d'; auto.
  - exfalso. apply Hok. left. by left.
Qed.

Lemma validate_postcondition_witness :
  is_dir Toy.example_platform
         (<["/w/figures" := Dir]> Toy.example_fs) "/w/figures" = true.
Proof.
  refine (proj1 (proj2 (validate_postcondition
                   Toy.example_platform Toy.example_args
                   (initial Toy.example_fs)
                   (initial (<["/w/figures" := Dir]> Toy.example_fs)) _))).
  reflexivity.
Defined.

(** ** Failing before any routine is called *)

Lemma find_generators_fails (P : platform) (args : Namespace) st file :
  In file (src_files P args (fs st)) -> parsed P (fs st) file = None ->
  exists e st', find_generators P args st = Stop (Raised e) st' /\
                same_but_stdout st st'.
Proof.
  intros Hfile Hnone.
  pose proof (find_generators_same P args st) as Hsame.
  destruct (find_generators P args st) as [fg st'|o st'] eqn:Hfind.
  - destruct (find_generators_cont P args _ _ _ Hfind) as (_ & _ & Hin).
    destruct (Hin file Hfile) as (tree & Htree & _). congruence.
  - destruct (find_generators_never_exits P args _ _ _ Hfind) as [e ->].
    by exists e, st'.
Qed.

Lemma load_metadata_stop (P : platform) (args : Namespace) st o st' :
  load_metadata P args st = Stop o st' ->
  o = Raised JSONDecodeError /\ same_but_stdout st st' /\
  path_exists P (fs st) (metafile args) = true /\
  json_load P (fs st) (metafile args) = None.
Proof.
  unfold load_metadata, vprint, when. unfold_run.
  destruct (path_exists P (fs st) (metafile args)) eqn:Hex;
    destruct (verbose args); simpl;
    try (destruct (json_load P (fs st) (metafile args)) eqn:Hj; simpl);
    try discriminate; by intros [= <- <-].
Qed.

(** X3: with valid arguments and a script under the search roots that
    cannot be read or parsed, the run is ended by an exception before any
    routine is called and before the store is written: on disk, at most the
    output directory has been made. *)
Theorem unparsable_script_aborts (P : platform) (args : Namespace)
    (fs0 : filesystem) (file : string) :
  ~ validation_failure P args fs0 ->
  In file (src_files P args (after_mkdir P args fs0)) ->
  parsed P (after_mkdir P args fs0) file = None ->
  (exists e, fst (run_main P args fs0) = Raised e) /\
  executed (snd (run_main P args fs0)) = [] /\
  (fs (snd (run_main P args fs0)) = fs0 \/
   fs (snd (run_main P args fs0)) = after_mkdir P args fs0).
Proof.
  intros Hok Hfile Hnone.
  unfold run_main. rewrite main_unfold. unfold bind.
  destruct (validate_spec P args (initial fs0))
    as [(Hfail & _)|(_ & [(sa & Hval & _)| ->])]; [done| |].
  2:{ simpl. split; [by eexists|]. auto. }
  rewrite Hval.
  destruct (validate_cont P args _ _ Hval) as (Hfsa & _ & Hea & _).
  simpl in Hfsa, Hea.
  unfold after_validation, bind.
  destruct (load_metadata P args sa) as [[] sb|o sb] eqn:Hload.
  - pose proof (load_metadata_spec P args sa) as Hl. rewrite Hload in Hl.
    destruct Hl as (Hfsb & Heb & _).
    destruct (find_generators_fails P args sb file)
      as (e & sc & -> & Hfsc & _ & Hec).
    { by rewrite Hfsb, Hfsa. }
    { by rewrite Hfsb, Hfsa. }
    simpl. split; [by eexists|]. split; [congruence|]. right. congruence.
  - apply load_metadata_stop in Hload as (-> & (Hfsb & _ & Heb) & _).
    simpl. split; [by eexists|]. split; [congruence|]. right. congruence.
Qed.

Lemma example_arguments_valid (P : platform) (fs1 : filesystem) :
  resolve P = (fun p => p) ->
  fs1 !! "/w/example" = Some Dir -> fs1 !! "/w/figures" = None ->
  ~ validation_failure P Toy.example_args fs1.
Proof.
  intros Hres Hdir Hout [[Hd|Hd]|[(dirs & d & Hd & Hin & Hbad)|[Hex _]]].
  - discriminate Hd.
  - discriminate Hd.
  - injection Hd as <-. destruct Hin as [<-|[]].
    unfold path_exists, is_dir in Hbad. rewrite Hres, Hdir in Hbad.
    by destruct Hbad.
  - unfold path_exists in Hex. simpl in Hex. rewrite Hres, Hout in Hex.
    discriminate Hex.
Qed.

Lemma unparsable_script_aborts_witness :
  (exists e, fst (run_main broken_platform Toy.example_args broken_fs) = Raised e) /\
  executed (snd (run_main broken_platform Toy.example_args broken_fs)) = [] /\
  (fs (snd (run_main broken_platform Toy.example_args broken_fs)) = broken_fs \/
   fs (snd (run_main broken_platform Toy.example_args broken_fs))
   = after_mkdir broken_platform Toy.example_args broken_fs).
Proof.
  apply (unparsable_script_aborts broken_platform Toy.example_args broken_fs
           "/w/example/figscripts/broken.py").
  - apply example_arguments_valid; reflexivity.
  - vm_compute. auto.
  - reflexivity.
Defined.



(** ** The shape of the discovery result *)

Lemma dict_set_keys {V} (k : string) (v : V) (d : pydict V) :
  List.map fst (dict_set k v d) =
  if bool_decide (k ∈ List.map fst d) then List.map fst d
  else (List.map fst d ++ [k])%list.
Proof.
  induction d as [|[k' v'] d IH]; simpl.
  - done.
  - destruct (String.eqb k' k) eqn:Hk; simpl.
    + apply String.eqb_eq in Hk as ->.
      by rewrite bool_decide_eq_true_2 by set_solver.
    + apply String.eqb_neq in Hk. rewrite IH.
      destruct (bool_decide (k ∈ List.map fst d)) eqn:Hin.
      * apply bool_decide_eq_true_1 in Hin.
        by rewrite bool_decide_eq_true_2 by set_solver.
      * apply bool_decide_eq_false_1 in Hin.
        by rewrite bool_decide_eq_false_2 by set_solver.
Qed.

Lemma dict_set_nodup {V} (k : string) (v : V) (d : pydict V) :
  NoDup (List.map fst d) -> NoDup (List.map fst (dict_set k v d)).
Proof.
  intros Hnd. rewrite dict_set_keys. case_bool_decide; [done|].
  apply NoDup_app. split; [done|]. split.
  - intros x Hx Hk. apply list_elem_of_singleton in Hk as ->. done.
  - apply NoDup_singleton.
Qed.

Lemma dict_get_in_nodup {V} (k : string) (v : V) (d : pydict V) :
  NoDup (List.map fst d) -> In (k, v) d -> dict_get k d = Some v.
Proof.
  induction d as [|[k' v'] d IH]; simpl; [done|].
  intros Hnd [[= -> ->]|Hin].
  - by rewrite String.eqb_refl.
  - apply NoDup_cons in Hnd as [Hk' Hnd].
    destruct (String.eqb k' k) eqn:Hk; [|by apply IH].
    apply String.eqb_eq in Hk as ->. exfalso. apply Hk'.
    apply list_elem_of_In, in_map_iff. by exists (k, v).
Qed.

Lemma filter_loop_nodup (P : platform) (args : Namespace) files :
  forall fg fg' st st',
    NoDup (List.map fst fg) ->
    for_fold (filter_file P args) files fg st = Cont fg' st' ->
    NoDup (List.map fst fg').
Proof.
  induction files as [|x files IH]; intros fg fg' st st' Hnd; simpl.
  - by intros [= <- _].
  - intros Hrun. apply bind_cont in Hrun as (fg1 & st1 & Hx & Hrest).
    destruct (filter_file_cont P args _ _ _ _ _ Hx) as (tree & _ & ->).
    eapply IH; [|exact Hrest].
    destruct (0 <? List.length (discover_file tree))%nat; [|done].
    by apply dict_set_nodup.
Qed.

(** X5: the discovery result lists every file once, each with the
    non-empty list of names discovery finds in it, and only files found
    under the search roots; so a script without a tagged routine is never
    handed to the loader. *)
Theorem discovery_result_structure (P : platform) (args : Namespace)
    (st st' : state) (fig_generators : pydict (list string)) :
  find_generators P args st = Cont fig_generators st' ->
  NoDup (List.map fst fig_generators) /\
  forall fp fncts,
    In (fp, fncts) fig_generators ->
    fncts <> [] /\
    In fp (src_files P args (fs st)) /\
    dict_get fp fig_generators = Some fncts /\
    exists tree, parsed P (fs st) fp = Some tree /\ fncts = discover_file tree.
Proof.
  intros Hfind.
  assert (NoDup (List.map fst fig_generators)) as Hnd.
  { destruct (find_generators_loop P args _ _ _ Hfind) as (s & _ & Hloop).
    eapply filter_loop_nodup; [|exact Hloop]. constructor. }
  split; [done|]. intros fp fncts Hin.
  pose proof (find_generators_keys P args _ _ _ (fp, fncts) Hfind Hin) as Hfp.
  simpl in Hfp.
  pose proof (dict_get_in_nodup _ _ _ Hnd Hin) as Hget.
  destruct (find_generators_cont P args _ _ _ Hfind) as (_ & _ & Hentry).
  destruct (Hentry fp Hfp) as (tree & Htree & Hafter).
  rewrite Hget in Hafter. unfold entry_after in Hafter.
  destruct (0 <? List.length (discover_file tree))%nat eqn:Hlen;
    [|discriminate Hafter].
  injection Hafter as ->. split_and!; try done.
  - intros Hnil. rewrite Hnil in Hlen. discriminate Hlen.
  - by exists tree.
Qed.

Lemma discovery_result_structure_witness :
  NoDup (List.map fst
           [("/w/example/figscripts/line.py", ["fig_line"]);
            ("/w/example/figscripts/parabola.py",
             ["fig_parabola"; "fig_parabola2"])]).
Proof.
  refine (proj1 (discovery_result_structure
                   Toy.example_platform Toy.example_args
                   (initial Toy.example_fs) (initial Toy.example_fs) _ _)).
  reflexivity.
Defined.

(** ** What [--verbose] changes *)

Lemma same_effects_refl st : same_effects st st.
Proof. by split_and!. Qed.

Section Alike.
Lemma alike_ret {A} (a : A) : alike (ret a) (ret a).
Proof. by intros st st' Hs. Qed.

Lemma alike_raise {A} (e : exception) : alike (@raise A e) (raise e).
Proof. by intros st st' Hs. Qed.

Lemma alike_exit {A} (code : Z) : alike (@exit A code) (exit code).
Proof. by intros st st' Hs. Qed.

Lemma alike_print (x y : message) : alike (print x) (print y).
Proof. by intros st st' (? & ? & ?). Qed.

Lemma alike_print_ret (x : message) : alike (print x) (ret tt).
Proof. by intros st st' (? & ? & ?). Qed.

Lemma alike_get_fs : alike get_fs get_fs.
Proof. by intros st st' (? & ? & ?). Qed.

Lemma alike_get_meta : alike get_meta get_meta.
Proof. by intros st st' (? & ? & ?). Qed.

Lemma alike_put_fs (fs' : filesystem) : alike (put_fs fs') (put_fs fs').
Proof. by intros st st' (? & ? & ?). Qed.

Lemma alike_put_meta (m : store) : alike (put_meta m) (put_meta m).
Proof. by intros st st' (? & ? & ?). Qed.

Lemma alike_log_call (fp fnc : string) : alike (log_call fp fnc) (log_call fp fnc).
Proof.
  intros st st' (? & ? & He). unfold log_call. simpl.
  split; [done|]. split_and!; simpl; congruence.
Qed.

Lemma alike_bind {A B} (m m' : M A) (k k' : A -> M B) :
  alike m m' -> (forall a, alike (k a) (k' a)) ->
  alike (bind m k) (bind m' k').
Proof.
  intros Hm Hk st st' Hs. unfold bind. specialize (Hm st st' Hs).
  destruct (m st) as [a s|o s], (m' st') as [a' s'|o' s']; simpl in Hm;
    try done.
  destruct Hm as [<- Hs']. by apply Hk.
Qed.

Lemma alike_for_each {A} (body body' : A -> M unit) (l : list A) :
  (forall x, alike (body x) (body' x)) ->
  alike (for_each body l) (for_each body' l).
Proof.
  intros Hbody. induction l as [|x l IH]; simpl.
  - apply alike_ret.
  - apply alike_bind; [apply Hbody | intros _; apply IH].
Qed.

Lemma alike_for_fold {A B} (body body' : A -> B -> M B) (l : list A) (acc : B) :
  (forall x b, alike (body x b) (body' x b)) ->
  alike (for_fold body l acc) (for_fold body' l acc).
Proof.
  intros Hbody. revert acc. induction l as [|x l IH]; intros acc; simpl.
  - apply alike_ret.
  - apply alike_bind; [apply Hbody | intros acc'; apply IH].
Qed.

Lemma alike_for_each_print (said said' : list message) :
  alike (for_each print said) (for_each print said').
Proof.
  intros st st' (? & ? & ?). rewrite !for_each_print. simpl.
  split; [done|]. by split_and!.
Qed.
End Alike.

Ltac alike_step :=
  first
    [ apply alike_ret | apply alike_raise | apply alike_exit
    | apply alike_print | apply alike_print_ret
    | apply alike_get_fs | apply alike_get_meta
    | apply alike_put_fs | apply alike_put_meta | apply alike_log_call
    | apply alike_for_each_print
    | apply alike_bind; [|intros ?]
    | apply alike_for_each; intros ?
    | apply alike_for_fold; intros ? ?
    | match goal with
      | |- alike (match ?x with _ => _ end) (match ?x with _ => _ end) =>
          destruct x
      end ].

(** The decision and the store do not depend on [--verbose]. *)
Lemma evaluate_verbose (b : bool) (args : Namespace) fp fnc full_fp c artifact
    dependent (m : store) :
  fst (evaluate (with_verbose b args) fp fnc full_fp c artifact dependent m) =
  fst (evaluate args fp fnc full_fp c artifact dependent m).
Proof.
  unfold evaluate, check_dependents, with_verbose. simpl.
  repeat case_match; simplify_eq; done.
Qed.

Section Verbose.
Context (P : platform) (args : Namespace).
Hypothesis Hcwd : forall p, relative_to_cwd P p <> None.

Local Abbreviation loud := (with_verbose true args).
Local Abbreviation silent := (with_verbose false args).

Lemma validate_alike : alike (validate P loud) (validate P silent).
Proof.
  unfold validate, validate_dir, with_verbose. simpl.
  repeat alike_step.
Qed.

Lemma load_metadata_alike : alike (load_metadata P loud) (load_metadata P silent).
Proof.
  unfold load_metadata, vprint, when, with_verbose. simpl.
  repeat alike_step.
Qed.

Lemma filter_file_alike file fg :
  alike (filter_file P loud file fg) (filter_file P silent file fg).
Proof.
  unfold filter_file, vprint, when, with_verbose. simpl.
  apply alike_bind.
  - destruct (relative_to_cwd P (resolve P file)) eqn:Hrel.
    + apply alike_print_ret.
    + by destruct (Hcwd (resolve P file)).
  - intros _. repeat alike_step.
Qed.

Lemma find_generators_alike :
  alike (find_generators P loud) (find_generators P silent).
Proof.
  unfold find_generators, vprint, when. simpl.
  apply alike_bind; [apply alike_print_ret|]. intros _.
  apply alike_bind; [apply alike_get_fs|]. intros fs1.
  apply alike_bind; [apply alike_print_ret|]. intros _.
  apply alike_bind; [apply alike_print_ret|]. intros _.
  assert (src_files P loud fs1 = src_files P silent fs1) as -> by reflexivity.
  apply alike_for_fold. intros file fg. apply filter_file_alike.
Qed.

Lemma run_routine_alike fp module fnc :
  alike (run_routine P loud fp module fnc) (run_routine P silent fp module fnc).
Proof.
  unfold run_routine.
  destruct (module !! fnc) as [[g|]|]; [|repeat alike_step..].
  destruct (params g) as [|[|] [|]].
  1,3,4,5: apply alike_print.
  destruct (figaroname g) as [file_name|]; [|repeat alike_step].
  destruct (figaroext g) as [file_ext|]; [|repeat alike_step].
  apply alike_bind; [apply alike_get_fs|]. intros fs1.
  destruct (checksum P fs1 fp) as [c|]; [|apply alike_raise].
  apply alike_bind; [apply alike_get_meta|]. intros m.
  pose proof (evaluate_verbose true args fp fnc (resolve P fp) c
                (is_file P fs1 (joinpath P (out args) (file_name ++ "." ++ file_ext)))
                (resolve P (joinpath P (out args) (file_name ++ "." ++ file_ext)))
                m) as Hloud.
  pose proof (evaluate_verbose false args fp fnc (resolve P fp) c
                (is_file P fs1 (joinpath P (out args) (file_name ++ "." ++ file_ext)))
                (resolve P (joinpath P (out args) (file_name ++ "." ++ file_ext)))
                m) as Hsilent.
  simpl out in *.
  destruct (evaluate loud _ _ _ _ _ _ _) as [[d1 m1] said1].
  destruct (evaluate silent _ _ _ _ _ _ _) as [[d0 m0] said0].
  simpl in Hloud, Hsilent.
  assert (d1 = d0 /\ m1 = m0) as [-> ->] by (split; congruence).
  apply alike_bind; [apply alike_put_meta|]. intros _.
  apply alike_bind; [apply alike_for_each_print|]. intros _.
  destruct d0; try apply alike_ret.
  unfold vprint, when. simpl.
  apply alike_bind; [apply alike_print_ret|]. intros _.
  apply alike_bind; [apply alike_log_call|]. intros _.
  destruct (call g _ fs1); [|apply alike_raise].
  apply alike_bind; [apply alike_put_fs|]. intros _. apply alike_print_ret.
Qed.

Lemma run_generators_alike fg :
  alike (run_generators P loud fg) (run_generators P silent fg).
Proof.
  unfold run_generators, run_file, when. simpl.
  apply alike_bind.
  - destruct (force args); [apply alike_print_ret | apply alike_ret].
  - intros _. apply alike_for_each. intros [fp fncts].
    apply alike_bind; [apply alike_get_fs|]. intros fs1.
    destruct (read_file P fs1 fp) as [source|]; [|apply alike_raise].
    destruct (exec_module P source) as [module|]; [|apply alike_raise].
    apply alike_for_each. intros fnc. apply run_routine_alike.
Qed.

Lemma cleanup_alike : alike (cleanup P loud) (cleanup P silent).
Proof.
  unfold cleanup, with_verbose. simpl. repeat alike_step.
Qed.

Lemma save_metadata_alike : alike (save_metadata P loud) (save_metadata P silent).
Proof.
  unfold save_metadata, with_verbose. simpl. repeat alike_step.
Qed.

Lemma main_alike : alike (main P loud) (main P silent).
Proof.
  unfold main.
  apply alike_bind; [apply validate_alike|]. intros _.
  apply alike_bind; [apply load_metadata_alike|]. intros _.
  apply alike_bind; [apply find_generators_alike|]. intros fg.
  apply alike_bind; [apply run_generators_alike|]. intros _.
  apply alike_bind; [apply cleanup_alike|]. intros _.
  apply save_metadata_alike.
Qed.
End Verbose.



Lemma filter_file_verbose_cont (P : platform) (args : Namespace)
    file fg fg' st st' :
  filter_file P args file fg st = Cont fg' st' -> verbose args = true ->
  relative_to_cwd P (resolve P file) <> None.
Proof.
  unfold filter_file. unfold_run. intros Heq Hv Hnone.
  rewrite Hv, Hnone in Heq. discriminate Heq.
Qed.

Lemma filter_loop_verbose (P : platform) (args : Namespace) files :
  forall fg fg' st st',
    for_fold (filter_file P args) files fg st = Cont fg' st' ->
    verbose args = true ->
    forall file, In file files -> relative_to_cwd P (resolve P file) <> None.
Proof.
  induction files as [|x files IH]; intros fg fg' st st'; simpl; [by intros|].
  intros Hrun Hv file Hfile.
  apply bind_cont in Hrun as (fg1 & st1 & Hx & Hrest).
  destruct Hfile as [<-|Hfile].
  - by eapply filter_file_verbose_cont.
  - by eapply IH.
Qed.

(** A run whose discovery cannot return ends there. *)
Lemma run_aborts_in_discovery (P : platform) (args : Namespace)
    (fs0 : filesystem) :
  ~ validation_failure P args fs0 ->
  (forall st fg st', fs st = after_mkdir P args fs0 ->
                     find_generators P args st <> Cont fg st') ->
  (exists e, fst (run_main P args fs0) = Raised e) /\
  executed (snd (run_main P args fs0)) = [] /\
  (fs (snd (run_main P args fs0)) = fs0 \/
   fs (snd (run_main P args fs0)) = after_mkdir P args fs0).
Proof.
  intros Hok Hfind.
  unfold run_main. rewrite main_unfold. unfold bind.
  destruct (validate_spec P args (initial fs0))
    as [(Hfail & _)|(_ & [(sa & Hval & _)| ->])]; [done| |].
  2:{ simpl. split; [by eexists|]. auto. }
  rewrite Hval.
  destruct (validate_cont P args _ _ Hval) as (Hfsa & _ & Hea & _).
  simpl in Hfsa, Hea.
  unfold after_validation, bind.
  destruct (load_metadata P args sa) as [[] sb|o sb] eqn:Hload.
  - pose proof (load_metadata_spec P args sa) as Hl. rewrite Hload in Hl.
    destruct Hl as (Hfsb & Heb & _).
    pose proof (find_generators_same P args sb) as Hsame.
    destruct (find_generators P args sb) as [fg sc|o sc] eqn:Hf.
    { exfalso. eapply (Hfind sb); [congruence | exact Hf]. }
    destruct (find_generators_never_exits P args _ _ _ Hf) as [e ->].
    destruct Hsame as (Hfsc & _ & Hec). simpl in *.
    split; [by eexists|]. split; [congruence|]. right. congruence.
  - apply load_metadata_stop in Hload as (-> & (Hfsb & _ & Heb) & _).
    simpl. split; [by eexists|]. split; [congruence|]. right. congruence.
Qed.

(** X7: with [--verbose], valid arguments and a script under the search
    roots whose path cannot be given relative to the working directory, the
    progress line of line 152 raises: the run is ended by an exception before
    any routine is called, whatever the same run does without [--verbose]. *)
Theorem verbose_outside_cwd_aborts (P : platform) (args : Namespace)
    (fs0 : filesystem) (file : string) :
  ~ validation_failure P args fs0 ->
  verbose args = true ->
  In file (src_files P args (after_mkdir P args fs0)) ->
  relative_to_cwd P (resolve P file) = None ->
  (exists e, fst (run_main P args fs0) = Raised e) /\
  executed (snd (run_main P args fs0)) = [] /\
  (fs (snd (run_main P args fs0)) = fs0 \/
   fs (snd (run_main P args fs0)) = after_mkdir P args fs0).
Proof.
  intros Hok Hv Hfile Hnone. apply run_aborts_in_discovery; [done|].
  intros st fg st' Hfs Hfind.
  apply find_generators_loop in Hfind as (s & (Hfss & _) & Hloop).
  eapply (filter_loop_verbose P args _ _ _ _ _ Hloop Hv file); [|done].
  by rewrite Hfs.
Qed.

Lemma verbose_outside_cwd_aborts_witness :
  (exists e,
     fst (run_main outside_cwd_platform (with_verbose true Toy.example_args)
                   Toy.example_fs) = Raised e) /\
  executed (snd (run_main outside_cwd_platform
                          (with_verbose true Toy.example_args)
                          Toy.example_fs)) = [] /\
  (fs (snd (run_main outside_cwd_platform (with_verbose true Toy.example_args)
                     Toy.example_fs)) = Toy.example_fs \/
   fs (snd (run_main outside_cwd_platform (with_verbose true Toy.example_args)
                     Toy.example_fs))
   = after_mkdir outside_cwd_platform (with_verbose true Toy.example_args)
                 Toy.example_fs).
Proof.
  apply (verbose_outside_cwd_aborts outside_cwd_platform
           (with_verbose true Toy.example_args) Toy.example_fs
           "/w/example/figscripts/line.py").
  - intros [[Hd|Hd]|[(dirs & d & Hd & Hin & Hbad)|[Hex _]]].
    + discriminate Hd.
    + discriminate Hd.
    + injection Hd as <-. destruct Hin as [<-|[]].
      destruct Hbad as [Hbad|Hbad]; vm_compute in Hbad; discriminate Hbad.
    + vm_compute in Hex. discriminate Hex.
  - reflexivity.
  - vm_compute. auto.
  - reflexivity.
Defined.

Example without_verbose_it_runs :
  fst (run_main outside_cwd_platform (with_verbose false Toy.example_args)
                Toy.example_fs) = Done.
Proof. by vm_compute. Qed.

(** ** What an aborted run leaves of the store *)

Lemma bind_stop {A B} (m : M A) (k : A -> M B) st o st' :
  bind m k st = Stop o st' ->
  m st = Stop o st' \/ exists a s, m st = Cont a s /\ k a s = Stop o st'.
Proof.
  unfold bind. destruct (m st) as [a s|o1 s].
  - intros Hk. right. by exists a, s.
  - intros [= <- <-]. by left.
Qed.

Lemma quiet_node (W : string -> Prop) (fs1 fs2 : filesystem) q :
  quiet W fs1 fs2 -> is_reg (fs1 !! q) = true -> ~ W q ->
  fs2 !! q = fs1 !! q.
Proof. intros Hq Hreg HW. by destruct (Hq q Hreg) as [?|[? _]]. Qed.

#[local] Instance fs_quiet_preorder W : PreOrder (fs_quiet W).
Proof.
  split.
  - intros st. unfold fs_quiet. reflexivity.
  - intros st1 st2 st3. unfold fs_quiet. apply transitivity.
Qed.

Section QuietRun.
Context (P : platform) (args : Namespace) (W : string -> Prop).
Hypothesis Hcontract :
  forall content module fnc g sp,
    exec_module P content = Some module ->
    target P args module fnc = Some (g, sp) ->
    honours_contract P g sp.
Hypothesis Hpaths :
  forall content module fnc g sp,
    exec_module P content = Some module ->
    target P args module fnc = Some (g, sp) ->
    W (resolve P sp).

Lemma run_routine_quiet content module fp fnc :
  exec_module P content = Some module ->
  keeps (fs_quiet W) (run_routine P args fp module fnc).
Proof.
  intros Hmod st. unfold fs_quiet.
  destruct (target P args module fnc) as [[g sp]|] eqn:Ht.
  2:{ destruct (run_routine_no_target P args fp module fnc st Ht) as (-> & _).
      reflexivity. }
  destruct (checksum P (fs st) fp) as [c|] eqn:Hc.
  2:{ rewrite (run_routine_unreadable P args _ _ _ _ _ _ Ht Hc). simpl.
      reflexivity. }
  destruct (evaluate args fp fnc (resolve P fp) c (is_file P (fs st) sp)
                     (resolve P sp) (meta_content st))
    as [[d m'] said] eqn:He.
  destruct (run_routine_target P args _ _ _ _ _ _ _ _ _ _ Ht Hc He) as [_ Hd].
  simpl in Hd. destruct d.
  - destruct Hd as (_ & -> & _). reflexivity.
  - destruct Hd as [_ Hd]. destruct (call g sp (fs st)) as [fs'|] eqn:Hcall.
    + destruct Hd as [-> _].
      destruct (Hcontract _ _ _ _ _ Hmod Ht _ _ Hcall) as [Hfile Hframe].
      intros q Hq. destruct (decide (q = resolve P sp)) as [->|Hne].
      * right. split; [by eapply Hpaths|]. by rewrite <- is_file_is_reg.
      * left. by apply Hframe.
    + destruct Hd as [-> _]. reflexivity.
  - destruct Hd as (_ & -> & _). reflexivity.
Qed.

Lemma run_generators_quiet fg : keeps (fs_quiet W) (run_generators P args fg).
Proof.
  unfold run_generators.
  apply keeps_bind; [apply _ | |].
  - apply keeps_when; [apply _|]. intros st. unfold fs_quiet.
    simpl. reflexivity.
  - intros _. apply keeps_for_each; [apply _|]. intros [fp fncts] _.
    unfold run_file.
    apply keeps_bind; [apply _ | intros st; unfold get_fs; simpl; reflexivity|].
    intros fs1.
    destruct (read_file P fs1 fp) as [content|];
      [|unfold raise; apply keeps_stop; apply _].
    destruct (exec_module P content) as [module|] eqn:Hmod;
      [|unfold raise; apply keeps_stop; apply _].
    apply keeps_for_each; [apply _|]. intros fnc _.
    by eapply run_routine_quiet.
Qed.
End QuietRun.

Lemma artifact_path_target (P : platform) (args : Namespace)
    content module fnc g sp :
  exec_module P content = Some module ->
  target P args module fnc = Some (g, sp) ->
  artifact_path P args (resolve P sp).
Proof. intros Hmod Ht. right. by exists content, module, fnc, g, sp. Qed.


Lemma broken_platform_targets content module fnc g sp :
  exec_module broken_platform content = Some module ->
  target broken_platform Toy.example_args module fnc = Some (g, sp) ->
  sp = "/w/figures/line.pdf" /\ call g = Toy.savefig "line pdf".
Proof.
  unfold broken_platform, Toy.make, exec_module, Toy.find_source.
  destruct (String.eqb (Toy.text broken_py) (string_of_list_byte content));
    [discriminate|].
  destruct (String.eqb (Toy.text Toy.line_py) (string_of_list_byte content));
    [|discriminate].
  intros [= <-]. unfold target.
  destruct (decide (fnc = "fig_line")) as [->|Hne].
  - rewrite lookup_singleton_eq. simpl. by intros [= <- <-].
  - rewrite lookup_singleton_ne by done. discriminate.
Qed.

Lemma toy_savefig_contract (P : platform) (g : callable) (sp data : string) :
  resolve P = (fun p => p) ->
  call g = Toy.savefig data -> honours_contract P g sp.
Proof.
  intros Hres Hcall fs1 fs2. rewrite Hcall. unfold Toy.savefig. intros [= <-].
  unfold is_file. rewrite Hres. split.
  - by rewrite lookup_insert_eq.
  - intros q _ Hne. by rewrite lookup_insert_ne.
Qed.


(** ** The phases of a completed run *)

Lemma run_main_done_phases (P : platform) (args : Namespace) fs0 st1 :
  run_main P args fs0 = (Done, st1) ->
  exists sa sb fg sc sd se,
    validate P args (initial fs0) = Cont tt sa /\
    load_metadata P args sa = Cont tt sb /\
    find_generators P args sb = Cont fg sc /\
    run_generators P args fg sc = Cont tt sd /\
    cleanup P args sd = Cont tt se /\
    save_metadata P args se = Cont tt st1.
Proof.
  intros Hrun. apply run_main_done in Hrun. rewrite main_unfold in Hrun.
  apply bind_cont in Hrun as ([] & sa & Hval & Hrest).
  unfold after_validation in Hrest.
  apply bind_cont in Hrest as ([] & sb & Hload & Hrest).
  apply bind_cont in Hrest as (fg & sc & Hfind & Hrest).
  apply bind_cont in Hrest as ([] & sd & Hgen & Hrest).
  apply bind_cont in Hrest as ([] & se & Hclean & Hsave).
  by exists sa, sb, fg, sc, sd, se.
Qed.

(** After validation and loading: the file system discovery sees and the
    store the loop starts from. *)
Lemma loaded_state (P : platform) (args : Namespace) fs0 sa sb :
  validate P args (initial fs0) = Cont tt sa ->
  load_metadata P args sa = Cont tt sb ->
  fs sb = after_mkdir P args fs0 /\
  meta_content sb = loaded_store P args fs0 /\
  executed sb = [].
Proof.
  intros Hval Hload.
  destruct (validate_cont P args _ _ Hval) as (Hfsa & _ & Hea & _).
  simpl in Hfsa, Hea.
  pose proof (load_metadata_spec P args sa) as Hl. rewrite Hload in Hl.
  destruct Hl as (Hfsb & Heb & Hm).
  split; [congruence|]. split; [|congruence].
  unfold loaded_store, json_load, path_exists in *.
  rewrite Hfsa in Hm. unfold after_mkdir, path_exists in Hm.
  destruct (fs0 !! resolve P (out args)) eqn:Ho.
  - destruct Hm as [Hj|[Hne ->]].
    + destruct (fs0 !! resolve P (metafile args)) as [[| |]|];
        by simplify_eq.
    + by destruct (fs0 !! resolve P (metafile args)).
  - destruct (decide (resolve P (out args) = resolve P (metafile args)))
      as [Heq|Hne].
    + rewrite Heq, lookup_insert_eq in Hm. rewrite <- Heq, Ho.
      destruct Hm as [Hj|[Hne _]]; [discriminate Hj | discriminate Hne].
    + rewrite lookup_insert_ne in Hm by done.
      destruct Hm as [Hj|[Hnone ->]].
      * destruct (fs0 !! resolve P (metafile args)) as [[| |]|];
          by simplify_eq.
      * by destruct (fs0 !! resolve P (metafile args)).
Qed.

(** What a completed run has written is the store the loop ended with. *)
Lemma saved_store (P : platform) (args : Namespace) sd se st1 :
  cleanup P args sd = Cont tt se ->
  save_metadata P args se = Cont tt st1 ->
  meta_content st1 = meta_content sd /\
  executed st1 = executed sd /\
  json_load P (fs st1) (metafile args) = Some (meta_content sd).
Proof.
  intros Hclean Hsave.
  pose proof (cleanup_spec P args sd) as Hc. rewrite Hclean in Hc.
  destruct Hc as (Hme & Hee & _). simpl in Hme, Hee.
  pose proof (save_metadata_spec P args se) as Hs. rewrite Hsave in Hs.
  destruct Hs as (Hm1 & He1 & Hw).
  apply write_file_some in Hw as (-> & _).
  split; [congruence|]. split; [congruence|].
  unfold json_load. rewrite lookup_insert_eq. congruence.
Qed.

(** ** Invariants of the store *)

Lemma add_dependent_nodup (p : string) (d : list string) :
  NoDup d -> NoDup (add_dependent p d).
Proof.
  intros Hnd. unfold add_dependent. case_bool_decide; [done|].
  apply NoDup_app. split; [done|]. split.
  - intros x Hx Hp. apply list_elem_of_singleton in Hp as ->. done.
  - apply NoDup_singleton.
Qed.

Lemma evaluate_keeps_well_formed args fp fnc full_fp c artifact dependent
    (m m' : store) d said :
  well_formed m ->
  evaluate args fp fnc full_fp c artifact dependent m = (d, m', said) ->
  well_formed m' /\ d <> Corrupt.
Proof.
  intros Hwf Heq.
  destruct (m !! full_fp) as [r|] eqn:Hr.
  - destruct (Hwf _ _ Hr) as (c0 & deps & -> & Hnd).
    destruct (evaluate_well_formed args fp fnc full_fp c artifact dependent
                m _ c0 deps Hr eq_refl eq_refl)
      as [(said' & Heq' & _)|(said' & Heq')];
      rewrite Heq' in Heq; injection Heq as <- <- _; split; try done.
    intros k r Hk. destruct (decide (k = full_fp)) as [->|Hne].
    + rewrite lookup_insert_eq in Hk. injection Hk as <-.
      eexists _, _. split; [done|]. by apply add_dependent_nodup.
    + rewrite lookup_insert_ne in Hk by done. by eapply Hwf.
  - rewrite evaluate_new_record in Heq by done.
    injection Heq as <- <- _. split; [|done].
    intros k r Hk. destruct (decide (k = full_fp)) as [->|Hne].
    + rewrite lookup_insert_eq in Hk. injection Hk as <-.
      eexists _, _. split; [done|]. apply NoDup_singleton.
    + rewrite lookup_insert_ne in Hk by done. by eapply Hwf.
Qed.

#[local] Instance keeps_well_formed_preorder : PreOrder keeps_well_formed.
Proof.
  split.
  - intros st Hwf. exact Hwf.
  - intros st1 st2 st3 H12 H23 Hwf. by apply H23, H12.
Qed.

#[local] Instance keeps_record_preorder k : PreOrder (keeps_record k).
Proof.
  split.
  - intros st. reflexivity.
  - intros st1 st2 st3 H12 H23. unfold keeps_record in *. congruence.
Qed.

Section StoreInvariants.
Context (P : platform) (args : Namespace).

Lemma run_routine_well_formed fp module fnc :
  keeps keeps_well_formed (run_routine P args fp module fnc).
Proof.
  intros st Hwf.
  destruct (target P args module fnc) as [[g sp]|] eqn:Ht.
  2:{ destruct (run_routine_no_target P args fp module fnc st Ht)
        as (_ & -> & _). done. }
  destruct (checksum P (fs st) fp) as [c|] eqn:Hc.
  2:{ by rewrite (run_routine_unreadable P args _ _ _ _ _ _ Ht Hc). }
  destruct (evaluate args fp fnc (resolve P fp) c (is_file P (fs st) sp)
                     (resolve P sp) (meta_content st))
    as [[d m'] said] eqn:He.
  destruct (run_routine_target P args _ _ _ _ _ _ _ _ _ _ Ht Hc He) as [-> _].
  by eapply evaluate_keeps_well_formed.
Qed.

Lemma run_routine_keeps_record k fp module fnc :
  resolve P fp <> k ->
  keeps (keeps_record k) (run_routine P args fp module fnc).
Proof.
  intros Hk st. unfold keeps_record.
  destruct (target P args module fnc) as [[g sp]|] eqn:Ht.
  2:{ destruct (run_routine_no_target P args fp module fnc st Ht)
        as (_ & -> & _). done. }
  destruct (checksum P (fs st) fp) as [c|] eqn:Hc.
  2:{ by rewrite (run_routine_unreadable P args _ _ _ _ _ _ Ht Hc). }
  destruct (evaluate args fp fnc (resolve P fp) c (is_file P (fs st) sp)
                     (resolve P sp) (meta_content st))
    as [[d m'] said] eqn:He.
  destruct (run_routine_target P args _ _ _ _ _ _ _ _ _ _ Ht Hc He) as [-> _].
  eapply evaluate_other_keys; [exact He | done].
Qed.

Lemma run_generators_keeps (R : state -> state -> Prop) `{!PreOrder R} fg :
  (forall st st', same_but_stdout st st' -> R st st') ->
  (forall fp fncts content module fnc,
      In (fp, fncts) fg -> exec_module P content = Some module ->
      keeps R (run_routine P args fp module fnc)) ->
  keeps R (run_generators P args fg).
Proof.
  intros Hsame Hroutine. unfold run_generators.
  apply keeps_bind; [apply _ | |].
  - apply keeps_when; [apply _|]. intros st. by apply Hsame, print_same.
  - intros _. apply keeps_for_each; [apply _|]. intros [fp fncts] Hitem.
    unfold run_file.
    apply keeps_bind; [apply _ | intros st; unfold get_fs; simpl; reflexivity|].
    intros fs1.
    destruct (read_file P fs1 fp) as [content|];
      [|unfold raise; apply keeps_stop; apply _].
    destruct (exec_module P content) as [module|] eqn:Hexec;
      [|unfold raise; apply keeps_stop; apply _].
    apply keeps_for_each; [apply _|]. intros fnc _.
    by eapply Hroutine.
Qed.
End StoreInvariants.

(** X9: the loop keeps the store well formed (every record with a checksum
    and a duplicate-free dependents list), however it ends, and so a
    completed run that started from a well-formed store, or from none,
    writes a well-formed store. *)
Theorem well_formed_store_stays (P : platform) (args : Namespace) :
  (forall fig_generators st,
      well_formed (meta_content st) ->
      well_formed
        (meta_content (final (run_generators P args fig_generators st)))) /\
  (forall fs0 st1,
      well_formed (loaded_store P args fs0) ->
      run_main P args fs0 = (Done, st1) ->
      exists doc, json_load P (fs st1) (metafile args) = Some doc /\
                  well_formed doc).
Proof.
  assert (Hloop : forall fg, keeps keeps_well_formed (run_generators P args fg)).
  { intros fg. apply run_generators_keeps; [apply _ | |].
    - intros st st' (_ & Hm & _) Hwf. by rewrite Hm.
    - intros fp fncts content module fnc _ _. apply run_routine_well_formed. }
  split.
  - intros fg st. apply (Hloop fg st).
  - intros fs0 st1 Hwf Hrun.
    destruct (run_main_done_phases _ _ _ _ Hrun)
      as (sa & sb & fg & sc & sd & se & Hval & Hload & Hfind & Hgen & Hcl & Hsv).
    destruct (loaded_state _ _ _ _ _ Hval Hload) as (_ & Hmb & _).
    pose proof (find_generators_same P args sb) as Hsc. rewrite Hfind in Hsc.
    destruct Hsc as (_ & Hmc & _). simpl in Hmc.
    pose proof (Hloop fg sc) as Hsd. rewrite Hgen in Hsd. simpl in Hsd.
    destruct (saved_store _ _ _ _ _ Hcl Hsv) as (_ & _ & Hjson).
    exists (meta_content sd). split; [done|].
    apply Hsd. by rewrite Hmc, Hmb.
Qed.

Lemma well_formed_store_stays_witness :
  exists doc,
    json_load Toy.example_platform
      (fs (snd (run_main Toy.example_platform Toy.example_args Toy.example_fs)))
      "/w/.figaro.meta" = Some doc /\
    well_formed doc.
Proof.
  apply (proj2 (well_formed_store_stays Toy.example_platform Toy.example_args)
           Toy.example_fs).
  - intros k r Hk. vm_compute in Hk. discriminate Hk.
  - by vm_compute.
Defined.

(** X10: the loop touches only the records of the files it is given: a
    record under any other key is the same after it, however it ends, and a
    completed run writes back unchanged every record whose key is not the
    resolved path of a script found under the search roots.  Records of
    scripts that are gone are never pruned. *)
Theorem other_records_untouched (P : platform) (args : Namespace) (k : string) :
  (forall fig_generators st,
      (forall item, In item fig_generators -> resolve P item.1 <> k) ->
      meta_content (final (run_generators P args fig_generators st)) !! k
      = meta_content st !! k) /\
  (forall fs0 st1,
      (forall fp, In fp (src_files P args (after_mkdir P args fs0)) ->
                  resolve P fp <> k) ->
      run_main P args fs0 = (Done, st1) ->
      exists doc, json_load P (fs st1) (metafile args) = Some doc /\
                  doc !! k = loaded_store P args fs0 !! k).
Proof.
  assert (Hloop : forall fg,
             (forall item, In item fg -> resolve P item.1 <> k) ->
             keeps (keeps_record k) (run_generators P args fg)).
  { intros fg Hfg. apply run_generators_keeps; [apply _ | |].
    - intros st st' (_ & Hm & _). unfold keeps_record. by rewrite Hm.
    - intros fp fncts content module fnc Hitem _.
      apply run_routine_keeps_record.
      apply (Hfg _ Hitem). }
  split.
  - intros fg st Hfg. apply (Hloop fg Hfg st).
  - intros fs0 st1 Hk Hrun.
    destruct (run_main_done_phases _ _ _ _ Hrun)
      as (sa & sb & fg & sc & sd & se & Hval & Hload & Hfind & Hgen & Hcl & Hsv).
    destruct (loaded_state _ _ _ _ _ Hval Hload) as (Hfsb & Hmb & _).
    pose proof (find_generators_same P args sb) as Hsc. rewrite Hfind in Hsc.
    destruct Hsc as (_ & Hmc & _). simpl in Hmc.
    assert (forall item, In item fg -> resolve P item.1 <> k) as Hfg.
    { intros item Hitem. apply Hk. rewrite <- Hfsb.
      by eapply find_generators_keys. }
    pose proof (Hloop fg Hfg sc) as Hsd. rewrite Hgen in Hsd.
    unfold keeps_record in Hsd. simpl in Hsd.
    destruct (saved_store _ _ _ _ _ Hcl Hsv) as (_ & _ & Hjson).
    exists (meta_content sd). split; [done|]. by rewrite Hsd, Hmc, Hmb.
Qed.

Lemma other_records_untouched_witness :
  exists doc,
    json_load Toy.example_platform
      (fs (snd (run_main Toy.example_platform Toy.example_args
                         fs_with_old_record)))
      "/w/.figaro.meta" = Some doc /\
    doc !! "/w/example/figscripts/gone.py"
    = loaded_store Toy.example_platform Toy.example_args fs_with_old_record
        !! "/w/example/figscripts/gone.py".
Proof.
  apply (proj2 (other_records_untouched Toy.example_platform Toy.example_args
                  "/w/example/figscripts/gone.py") fs_with_old_record).
  - intros fp Hfp. vm_compute in Hfp.
    destruct Hfp as [<-|[<-|[]]]; by vm_compute.
  - by vm_compute.
Defined.

(** ** The calls a run makes *)

Lemma for_each_calls {A} (body : A -> M unit)
    (calls_of : A -> list (string * string)) (l : list A) :
  (forall x st, exists calls,
      executed (final (body x st)) = (executed st ++ calls)%list /\
      sublist calls (calls_of x)) ->
  forall st, exists calls,
    executed (final (for_each body l st)) = (executed st ++ calls)%list /\
    sublist calls (flat_map calls_of l).
Proof.
  intros Hbody. induction l as [|x l IH]; intros st; simpl.
  - exists []. by rewrite app_nil_r.
  - rewrite final_bind. destruct (Hbody x st) as (c1 & Hc1 & Hs1).
    destruct (body x st) as [[] s1|o s1] eqn:Hx; simpl in Hc1.
    + destruct (IH s1) as (c2 & Hc2 & Hs2).
      exists (c1 ++ c2)%list. split.
      * by rewrite Hc2, Hc1, <- app_assoc.
      * by apply sublist_app.
    + exists c1. split; [done|]. by apply sublist_inserts_r.
Qed.

Lemma flat_map_singleton {A B} (f : A -> B) (l : list A) :
  flat_map (fun x => [f x]) l = List.map f l.
Proof. induction l as [|x l IH]; simpl; by rewrite ?IH. Qed.

Section Calls.
Context (P : platform) (args : Namespace).

Lemma run_routine_calls fp module fnc st :
  exists calls,
    executed (final (run_routine P args fp module fnc st))
    = (executed st ++ calls)%list /\
    sublist calls [(fp, fnc)].
Proof.
  destruct (target P args module fnc) as [[g sp]|] eqn:Ht.
  2:{ destruct (run_routine_no_target P args fp module fnc st Ht)
        as (_ & _ & ->).
      exists []. rewrite app_nil_r. split; [done | apply sublist_nil_l]. }
  destruct (checksum P (fs st) fp) as [c|] eqn:Hc.
  2:{ rewrite (run_routine_unreadable P args _ _ _ _ _ _ Ht Hc). simpl.
      exists []. rewrite app_nil_r. split; [done | apply sublist_nil_l]. }
  destruct (evaluate args fp fnc (resolve P fp) c (is_file P (fs st) sp)
                     (resolve P sp) (meta_content st))
    as [[d m'] said] eqn:He.
  destruct (run_routine_target P args _ _ _ _ _ _ _ _ _ _ Ht Hc He) as [_ Hd].
  destruct d.
  - destruct Hd as (-> & _). exists []. rewrite app_nil_r.
    split; [done | apply sublist_nil_l].
  - destruct Hd as (-> & _). by exists [(fp, fnc)].
  - destruct Hd as (-> & _). exists []. rewrite app_nil_r.
    split; [done | apply sublist_nil_l].
Qed.

Lemma run_file_calls item st :
  exists calls,
    executed (final (run_file P args item st)) = (executed st ++ calls)%list /\
    sublist calls (List.map (pair item.1) item.2).
Proof.
  destruct item as [fp fncts]. simpl. unfold run_file.
  rewrite final_bind. unfold get_fs. simpl.
  destruct (read_file P (fs st) fp) as [content|]; simpl.
  2:{ exists []. rewrite app_nil_r. split; [done | apply sublist_nil_l]. }
  destruct (exec_module P content) as [module|]; simpl.
  2:{ exists []. rewrite app_nil_r. split; [done | apply sublist_nil_l]. }
  rewrite <- flat_map_singleton.
  apply for_each_calls. intros fnc s. apply run_routine_calls.
Qed.

Lemma run_generators_calls fg st :
  exists calls,
    executed (final (run_generators P args fg st))
    = (executed st ++ calls)%list /\
    sublist calls (listed_calls fg).
Proof.
  unfold run_generators. rewrite final_bind.
  assert (exists s, when (verbose args && force args) (print VForced) st
                    = Cont tt s /\ executed s = executed st) as (s & -> & <-).
  { destruct (verbose args && force args); simpl; by eexists. }
  unfold listed_calls. apply for_each_calls. intros item s'.
  apply run_file_calls.
Qed.

(** Where the calls of a whole run come from. *)
Lemma main_calls fs0 :
  executed (snd (run_main P args fs0)) = [] \/
  exists sb fg sc,
    fs sb = after_mkdir P args fs0 /\
    find_generators P args sb = Cont fg sc /\
    executed sc = [] /\
    executed (snd (run_main P args fs0))
    = executed (final (run_generators P args fg sc)).
Proof.
  rewrite run_main_final, main_unfold, final_bind.
  destruct (validate_spec P args (initial fs0))
    as [(_ & s & -> & (_ & _ & He))|(_ & [(sa & Hval & _)| ->])];
    [left; by rewrite He | | by left].
  rewrite Hval.
  destruct (validate_cont P args _ _ Hval) as (Hfsa & _ & Hea & _).
  simpl in Hfsa, Hea.
  unfold after_validation. rewrite final_bind.
  pose proof (load_metadata_spec P args sa) as Hl.
  destruct (load_metadata P args sa) as [[] sb|o sb] eqn:Hload.
  2:{ left. destruct Hl as (_ & _ & ->). done. }
  destruct Hl as (Hfsb & Heb & _).
  rewrite final_bind.
  pose proof (find_generators_same P args sb) as Hsame.
  destruct (find_generators P args sb) as [fg sc|o sc] eqn:Hfind.
  2:{ left. destruct Hsame as (_ & _ & Hec). simpl in *. congruence. }
  destruct Hsame as (_ & _ & Hec). simpl in Hec.
  right. exists sb, fg, sc. split; [congruence|]. split; [done|].
  split; [congruence|].
  rewrite final_bind.
  destruct (run_generators P args fg sc) as [[] sd|o sd] eqn:Hgen; [|done].
  rewrite final_bind. simpl.
  pose proof (cleanup_spec P args sd) as (_ & Hee & _).
  destruct (cleanup P args sd) as [[] se|o se] eqn:Hcl; [|done].
  simpl in Hee.
  pose proof (save_metadata_spec P args se) as Hs.
  destruct (save_metadata P args se) as [[] sf|o sf] eqn:Hsv; simpl.
  - destruct Hs as (_ & -> & _). done.
  - destruct Hs as [-> _]. done.
Qed.

(** One entry of the discovery result. *)
Lemma find_generators_entry st fg st' fp fncts :
  find_generators P args st = Cont fg st' ->
  In (fp, fncts) fg ->
  In fp (src_files P args (fs st)) /\
  exists tree, parsed P (fs st) fp = Some tree /\ fncts = discover_file tree.
Proof.
  intros Hfind Hin.
  assert (NoDup (List.map fst fg)) as Hnd.
  { destruct (find_generators_loop P args _ _ _ Hfind) as (s & _ & Hloop).
    eapply filter_loop_nodup; [|exact Hloop]. constructor. }
  pose proof (find_generators_keys P args _ _ _ (fp, fncts) Hfind Hin) as Hfp.
  simpl in Hfp. split; [done|].
  pose proof (dict_get_in_nodup _ _ _ Hnd Hin) as Hget.
  destruct (find_generators_cont P args _ _ _ Hfind) as (_ & _ & Hentry).
  destruct (Hentry fp Hfp) as (tree & Htree & Hafter).
  rewrite Hget in Hafter. unfold entry_after in Hafter.
  destruct (0 <? List.length (discover_file tree))%nat; [|discriminate Hafter].
  injection Hafter as ->. by exists tree.
Qed.
End Calls.

(** X11: the loop calls only routines of its listing, in the listing's
    order and each listed occurrence at most once, however it ends; so every
    call of a run, completed or not, is of a name discovery found in a script
    under the search roots. *)
Theorem only_listed_routines_called (P : platform) (args : Namespace) :
  (forall fig_generators st,
      exists calls,
        executed (final (run_generators P args fig_generators st))
        = (executed st ++ calls)%list /\
        sublist calls (listed_calls fig_generators)) /\
  (forall fs0 fp fnc,
      In (fp, fnc) (executed (snd (run_main P args fs0))) ->
      In fp (src_files P args (after_mkdir P args fs0)) /\
      exists tree,
        parsed P (after_mkdir P args fs0) fp = Some tree /\
        In fnc (discover_file tree)).
Proof.
  split; [apply run_generators_calls|].
  intros fs0 fp fnc Hin.
  destruct (main_calls P args fs0) as [Hnil|(sb & fg & sc & Hfs & Hfind & He & Hrun)].
  { rewrite Hnil in Hin. destruct Hin. }
  rewrite Hrun in Hin.
  destruct (run_generators_calls P args fg sc) as (calls & Hcalls & Hsub).
  rewrite Hcalls, He in Hin. simpl in Hin.
  apply list_elem_of_In in Hin.
  eapply sublist_submseteq, elem_of_submseteq in Hsub; [|exact Hin].
  apply list_elem_of_In in Hsub. unfold listed_calls in Hsub.
  apply in_flat_map in Hsub as ([fp' fncts] & Hitem & Hcall).
  apply in_map_iff in Hcall as (fnc' & [= <- <-] & Hfnc). simpl in *.
  destruct (find_generators_entry P args _ _ _ _ _ Hfind Hitem)
    as (Hsrc & tree & Htree & ->).
  rewrite Hfs in Hsrc, Htree. split; [done|]. by exists tree.
Qed.

Lemma only_listed_routines_called_witness :
  In "/w/example/figscripts/line.py"
     (src_files Toy.example_platform Toy.example_args
        (after_mkdir Toy.example_platform Toy.example_args Toy.example_fs)) /\
  exists tree,
    parsed Toy.example_platform
      (after_mkdir Toy.example_platform Toy.example_args Toy.example_fs)
      "/w/example/figscripts/line.py" = Some tree /\
    In "fig_line" (discover_file tree).
Proof.
  apply (proj2 (only_listed_routines_called Toy.example_platform
                  Toy.example_args) Toy.example_fs).
  vm_compute. by left.
Defined.

(** ** A routine that is due *)

Lemma add_dependent_in (p : string) (d : list string) : In p (add_dependent p d).
Proof.
  unfold add_dependent. case_bool_decide as Hp.
  - by apply list_elem_of_In.
  - apply in_or_app. right. by left.
Qed.



(** ** What the store says of the calls made *)

#[local] Instance keeps_calls_recorded_preorder P args :
  PreOrder (keeps_calls_recorded P args).
Proof.
  split.
  - intros st Hrec. exact Hrec.
  - intros st1 st2 st3 H12 H23 Hrec. by apply H23, H12.
Qed.

Lemma run_routine_records (P : platform) (args : Namespace) fp content module fnc :
  exec_module P content = Some module ->
  keeps (keeps_calls_recorded P args) (run_routine P args fp module fnc).
Proof.
  intros Hexec st Hrec.
  destruct (target P args module fnc) as [[g sp]|] eqn:Ht.
  2:{ destruct (run_routine_no_target P args fp module fnc st Ht)
        as (_ & -> & ->). done. }
  destruct (checksum P (fs st) fp) as [c|] eqn:Hc.
  2:{ by rewrite (run_routine_unreadable P args _ _ _ _ _ _ Ht Hc). }
  destruct (evaluate args fp fnc (resolve P fp) c (is_file P (fs st) sp)
                     (resolve P sp) (meta_content st))
    as [[d m'] said] eqn:He.
  destruct (run_routine_target P args _ _ _ _ _ _ _ _ _ _ Ht Hc He) as [-> Hd].
  assert (Hold : forall fp' fnc', In (fp', fnc') (executed st) ->
            exists c' deps q,
              m' !! resolve P fp' = Some (mkRecord (Some c') (Some deps)) /\
              save_path_of P args fnc' q /\ In q deps).
  { intros fp' fnc' Hin.
    destruct (Hrec _ _ Hin) as (c' & deps & q & Hr & Hq & Hdep).
    destruct (decide (resolve P fp' = resolve P fp)) as [Heq|Hne].
    - rewrite Heq in Hr |- *.
      destruct (evaluate_same_key _ _ _ _ _ _ _ _ _ _ _ _ He Hr)
        as ([c1 d1] & Hr' & Hc1 & (deps' & Hd1 & Hsub)).
      simpl in Hc1, Hd1. subst d1.
      destruct c1 as [c1|]; [|by destruct Hc1].
      exists c1, deps', q. split; [done|]. split; [done|].
      apply list_elem_of_In, Hsub, list_elem_of_In, Hdep.
    - exists c', deps, q. split; [|done].
      rewrite <- Hr. eapply evaluate_other_keys; [exact He | done]. }
  destruct d.
  - destruct Hd as (-> & _). exact Hold.
  - destruct Hd as (-> & _). intros fp' fnc' Hin.
    apply in_app_or in Hin as [Hin|[[= <- <-]|[]]]; [by apply Hold|].
    destruct (evaluate_run_record _ _ _ _ _ _ _ _ _ _ He) as (deps & Hr & Hdep).
    exists c, deps, (resolve P sp). split; [done|]. split.
    + by exists content, module, g, sp.
    + by apply list_elem_of_In.
  - destruct Hd as (-> & _). exact Hold.
Qed.

(** X13: the loop keeps every call on record, however it ends: the script
    of a call has a record with a checksum and a dependents list, and the
    list names a save path of the routine.  So the store a completed run
    writes has such a record for every call the run made. *)
Theorem calls_are_recorded (P : platform) (args : Namespace) :
  (forall fig_generators st,
      calls_recorded P args (executed st) (meta_content st) ->
      calls_recorded P args
        (executed (final (run_generators P args fig_generators st)))
        (meta_content (final (run_generators P args fig_generators st)))) /\
  (forall fs0 st1,
      run_main P args fs0 = (Done, st1) ->
      exists doc, json_load P (fs st1) (metafile args) = Some doc /\
                  calls_recorded P args (executed st1) doc).
Proof.
  assert (Hloop : forall fg,
             keeps (keeps_calls_recorded P args) (run_generators P args fg)).
  { intros fg. apply run_generators_keeps; [apply _ | |].
    - intros st st' (_ & Hm & He) Hrec. by rewrite Hm, He.
    - intros fp fncts content module fnc _ Hexec.
      by eapply run_routine_records. }
  split.
  - intros fg st. apply (Hloop fg st).
  - intros fs0 st1 Hrun.
    destruct (run_main_done_phases _ _ _ _ Hrun)
      as (sa & sb & fg & sc & sd & se & Hval & Hload & Hfind & Hgen & Hcl & Hsv).
    destruct (loaded_state _ _ _ _ _ Hval Hload) as (_ & _ & Heb).
    pose proof (find_generators_same P args sb) as Hsc. rewrite Hfind in Hsc.
    destruct Hsc as (_ & _ & Hec). simpl in Hec.
    pose proof (Hloop fg sc) as Hsd. rewrite Hgen in Hsd. simpl in Hsd.
    destruct (saved_store _ _ _ _ _ Hcl Hsv) as (_ & He1 & Hjson).
    exists (meta_content sd). split; [done|]. rewrite He1.
    apply Hsd. intros fp fnc Hin. rewrite Hec, Heb in Hin. destruct Hin.
Qed.

Lemma calls_are_recorded_witness :
  exists doc,
    json_load Toy.example_platform
      (fs (snd (run_main Toy.example_platform Toy.example_args Toy.example_fs)))
      "/w/.figaro.meta" = Some doc /\
    calls_recorded Toy.example_platform Toy.example_args
      (executed (snd (run_main Toy.example_platform Toy.example_args
                               Toy.example_fs)))
      doc.
Proof.
  apply (proj2 (calls_are_recorded Toy.example_platform Toy.example_args)
           Toy.example_fs).
  by vm_compute.
Defined.

(** ** Discovery, clause by clause *)

Lemma entries_of_repeat name decs :
  entries_of (mkDef name decs)
  = repeat name (List.length (List.filter is_tag_call decs)).
Proof.
  unfold entries_of, markers. simpl.
  induction (List.filter is_tag_call decs) as [|dec l IH]; simpl; by rewrite ?IH.
Qed.

(** X14: discovery is compositional.  The names found in two statement
    lists put one after the other are those of the first followed by those
    of the second; a [def] gives its name once per tag decorator, before the
    names of its body; a class and an [async def] give the names of their
    body only, whatever their own decorators; a compound statement gives the
    names of its blocks in order. *)
Theorem discovery_is_compositional :
  (forall tree1 tree2 : module_ast,
      discover_file (tree1 ++ tree2)%list
      = (discover_file tree1 ++ discover_file tree2)%list) /\
  (forall name decs body,
      discover_file [FunctionDef name decs body]
      = (repeat name (List.length (List.filter is_tag_call decs))
         ++ discover_file body)%list) /\
  (forall name decs body,
      discover_file [AsyncFunctionDef name decs body] = discover_file body) /\
  (forall name decs body,
      discover_file [ClassDef name decs body] = discover_file body) /\
  (forall test body orelse,
      discover_file [If test body orelse]
      = (discover_file body ++ discover_file orelse)%list).
Proof.
  split_and!; intros; rewrite !discover_file_entries; unfold all_defs; simpl.
  - by rewrite !flat_map_app.
  - by rewrite app_nil_r, entries_of_repeat.
  - by rewrite app_nil_r.
  - by rewrite app_nil_r.
  - by rewrite app_nil_r, flat_map_app.
Qed.

(** ** Cleanup *)

(** X15: cleanup removes an output directory found empty, and a run
    completed with [--gitignore] that leaves the output directory in place
    leaves in it a [.gitignore] holding [*], unless the store is kept at
    that very path. *)
Theorem kept_output_directory_is_ignored (P : platform) (args : Namespace) :
  (forall st st',
      cleanup P args st = Cont tt st' ->
      iterdir P (fs st) (out args) = [] ->
      path_exists P (fs st') (out args) = false) /\
  (forall fs0 st1,
      run_main P args fs0 = (Done, st1) ->
      gitignore args = true ->
      is_dir P (fs st1) (out args) = true ->
      resolve P (metafile args)
      <> resolve P (joinpath P (out args) ".gitignore") ->
      fs st1 !! resolve P (joinpath P (out args) ".gitignore")
      = Some (File ["*"%byte])).
Proof.
  split.
  - intros st st' Hcl Hempty. unfold cleanup, bind, get_fs in Hcl.
    rewrite Hempty in Hcl. unfold rmdir, path_exists in *.
    destruct (negb (is_dir P (fs st) (out args))); [discriminate Hcl|].
    destruct (fs st !! resolve P (out args)) as [[| |]|];
      try discriminate Hcl.
    injection Hcl as <-. simpl. by rewrite lookup_delete_eq.
  - intros fs0 st1 Hrun Hflag Hdir Hne.
    destruct (run_main_done_phases _ _ _ _ Hrun)
      as (sa & sb & fg & sc & sd & se & _ & _ & _ & _ & Hcl & Hsv).
    pose proof (save_metadata_spec P args se) as Hs. rewrite Hsv in Hs.
    destruct Hs as (_ & _ & Hw). apply write_file_some in Hw as (Hfs1 & _).
    unfold is_dir in Hdir. rewrite Hfs1 in Hdir |- *.
    rewrite lookup_insert_ne by done.
    destruct (decide (resolve P (metafile args) = resolve P (out args)))
      as [Heq|Hmo].
    { rewrite Heq, lookup_insert_eq in Hdir. discriminate Hdir. }
    rewrite lookup_insert_ne in Hdir by done.
    unfold cleanup, bind, get_fs in Hcl. rewrite Hflag in Hcl.
    destruct (negb (is_dir P (fs sd) (out args))); [discriminate Hcl|].
    destruct (iterdir P (fs sd) (out args)) as [|child children].
    + unfold rmdir in Hcl.
      destruct (fs sd !! resolve P (out args)) as [[| |]|];
        try discriminate Hcl.
      injection Hcl as <-. simpl in Hdir.
      rewrite lookup_delete_eq in Hdir. discriminate Hdir.
    + destruct (write_file P (fs sd) (joinpath P (out args) ".gitignore")
                           (File ["*"%byte])) as [fs'|] eqn:Hw;
        [|discriminate Hcl].
      injection Hcl as <-. simpl.
      apply write_file_some in Hw as (-> & _). by rewrite lookup_insert_eq.
Qed.

Lemma kept_output_directory_is_ignored_witness :
  fs (snd (run_main Toy.example_platform ignoring_args Toy.example_fs))
    !! "/w/figures/.gitignore"
  = Some (File ["*"%byte]).
Proof.
  apply (proj2 (kept_output_directory_is_ignored Toy.example_platform
                  ignoring_args) Toy.example_fs).
  - by vm_compute.
  - reflexivity.
  - by vm_compute.
  - by vm_compute.
Defined.
